(** * TCK coverage pipeline of the sqlite_graph extension

    A shallow embedding of

      - [scripts/update_compliance.py]: recomputation of the statistics
        block of the coverage ledger ([calculate_compliance],
        [update_statistics], [main]);
      - [parse_tck_scenarios.py]: extraction and classification of the
        scenarios of the openCypher TCK feature files
        ([parse_feature_file], [determine_language_area],
        [check_requires_runtime], [main]);
      - [scripts/demo_coverage_system.py]: what its [main] computes from
        the ledger for the status breakdown and for the list of pending
        scenarios.

    Python values are the ones [json.load] builds.  A [dict] is an
    association list in insertion order, a [float] is a binary64 number,
    an [int] is an unbounded integer and a [str] is a sequence of
    characters (ASCII in this model).  A call that can raise returns a
    [result]. *)

From Stdlib Require Import ZArith List String Ascii Bool Lia.
From Stdlib Require Import Floats.PrimFloat Floats.SpecFloat Floats.FloatOps.
From Stdlib Require Import Decimal DecimalNat DecimalString.
From Stdlib Require Import Sorting.Permutation Sorting.Sorted.
From Stdlib Require Structures.OrderedTypeEx.
Import ListNotations.

Local Open Scope string_scope.

(* ================================================================== *)
(** ** Exceptions and the error monad *)

Inductive exn : Type :=
| AttributeError
| TypeError
| KeyError
| ValueError
| ZeroDivisionError
| OverflowError
| OSError
| JSONDecodeError.

Inductive result (A : Type) : Type :=
| Ok (a : A)
| Raise (e : exn).

Arguments Ok {A} a.
Arguments Raise {A} e.

Definition bind {A B : Type} (r : result A) (k : A -> result B) : result B :=
  match r with
  | Ok a => k a
  | Raise e => Raise e
  end.

Notation "x <- r ;; k" := (bind r (fun x => k))
  (at level 61, r at next level, right associativity).

(* ================================================================== *)
(** ** Python values *)

Local Open Scope Z_scope.

#[warnings="-register-all"]
Inductive value : Type :=
| VNone
| VBool (b : bool)
| VInt (z : Z)
| VFloat (f : float)
| VStr (s : string)
| VList (l : list value)
| VDict (d : list (string * value)).

Definition dict : Type := list (string * value).

(** [k in d] and [d[k]] for a present key: the first binding of [k]. *)
Fixpoint dict_lookup (d : dict) (k : string) : option value :=
  match d with
  | [] => None
  | (k', v) :: d' => if String.eqb k' k then Some v else dict_lookup d' k
  end.

(** [d[k] = v]: a present key keeps its place, a new key goes last. *)
Fixpoint dict_set (d : dict) (k : string) (v : value) : dict :=
  match d with
  | [] => [(k, v)]
  | (k', v') :: d' =>
      if String.eqb k' k then (k', v) :: d' else (k', v') :: dict_set d' k v
  end.

(** [o.get(k, default)]: only a dict has the method. *)
Definition py_get (o : value) (k : string) (default : value) : result value :=
  match o with
  | VDict d =>
      match dict_lookup d k with
      | Some v => Ok v
      | None => Ok default
      end
  | _ => Raise AttributeError
  end.

(** [o[k]] on a dict. *)
Definition py_getitem (o : value) (k : string) : result value :=
  match o with
  | VDict d =>
      match dict_lookup d k with
      | Some v => Ok v
      | None => Raise KeyError
      end
  | _ => Raise TypeError
  end.

(** [o[k] = v] on a dict. *)
Definition py_setitem (o : value) (k : string) (v : value) : result value :=
  match o with
  | VDict d => Ok (VDict (dict_set d k v))
  | _ => Raise TypeError
  end.

(** [len(o)]. *)
Definition py_len (o : value) : result Z :=
  match o with
  | VList l => Ok (Z.of_nat (List.length l))
  | VDict d => Ok (Z.of_nat (List.length d))
  | VStr s => Ok (Z.of_nat (String.length s))
  | _ => Raise TypeError
  end.

Fixpoint chars (s : string) : list value :=
  match s with
  | EmptyString => []
  | String c s' => VStr (String c EmptyString) :: chars s'
  end.

(** The items [for x in o] visits: the elements of a list, the keys of a
    dict, the characters of a str. *)
Definition py_iter (o : value) : result (list value) :=
  match o with
  | VList l => Ok l
  | VDict d => Ok (map (fun kv => VStr (fst kv)) d)
  | VStr s => Ok (chars s)
  | _ => Raise TypeError
  end.

(** [o == s] for a str literal [s]. *)
Definition py_eq_str (o : value) (s : string) : bool :=
  match o with
  | VStr t => String.eqb t s
  | _ => false
  end.

(** *** Numbers *)

(** The float nearest to an integer. *)
Definition float_of_Z (z : Z) : float :=
  SF2Prim (binary_normalize prec emax z 0 false).

Definition Z2SF (z : Z) : spec_float :=
  match z with
  | Z0 => S754_zero false
  | Zpos p => S754_finite false p 0
  | Zneg p => S754_finite true p 0
  end.

(** [a / b] on two ints: the float nearest to the exact quotient. *)
Definition int_truediv (a b : Z) : float :=
  SF2Prim (SFdiv prec emax (Z2SF a) (Z2SF b)).

(** The least magnitude that rounds beyond the largest float: halfway
    between [2^1024 - 2^971] and [2^1024]. *)
Definition float_overflow : Z := 2 ^ 1024 - 2 ^ 970.

Inductive number : Type :=
| NInt (z : Z)
| NFloat (f : float).

(** A bool is an int in arithmetic. *)
Definition as_number (o : value) : option number :=
  match o with
  | VInt z => Some (NInt z)
  | VBool b => Some (NInt (if b then 1 else 0))
  | VFloat f => Some (NFloat f)
  | _ => None
  end.

(** [float(n)], which overflows on an int beyond the float range. *)
Definition to_float (n : number) : result float :=
  match n with
  | NFloat f => Ok f
  | NInt z =>
      if Z.leb float_overflow (Z.abs z) then Raise OverflowError
      else Ok (float_of_Z z)
  end.

(** [o == 0]. *)
Definition py_eq_zero (o : value) : bool :=
  match as_number o with
  | Some (NInt z) => Z.eqb z 0
  | Some (NFloat f) => PrimFloat.eqb f PrimFloat.zero
  | None => false
  end.

(** [a / b]. *)
Definition py_truediv (a b : value) : result float :=
  match as_number a, as_number b with
  | Some (NInt x), Some (NInt y) =>
      if Z.eqb y 0 then Raise ZeroDivisionError
      else if Z.leb (float_overflow * Z.abs y) (Z.abs x) then
        Raise OverflowError
      else Ok (int_truediv x y)
  | Some x, Some y =>
      fx <- to_float x ;;
      fy <- to_float y ;;
      if PrimFloat.eqb fy PrimFloat.zero then Raise ZeroDivisionError
      else Ok (PrimFloat.div fx fy)
  | _, _ => Raise TypeError
  end.

(** [o + 1] on a number. *)
Definition py_add1 (o : value) : result value :=
  match as_number o with
  | Some (NInt z) => Ok (VInt (z + 1))
  | Some (NFloat f) => Ok (VFloat (PrimFloat.add f PrimFloat.one))
  | None => Raise TypeError
  end.

Local Close Scope Z_scope.

(* ================================================================== *)
(** ** Python [str] *)

(** The line feed. *)
Definition lf : ascii := "010"%char.

(** [s.startswith(p)]. *)
Fixpoint startswith (s p : string) : bool :=
  match p, s with
  | EmptyString, _ => true
  | String a p', String b s' => Ascii.eqb a b && startswith s' p'
  | String _ _, EmptyString => false
  end.

(** [s.endswith(p)]. *)
Fixpoint endswith (s p : string) : bool :=
  String.eqb s p ||
  match s with
  | EmptyString => false
  | String _ s' => endswith s' p
  end.

(** [s.split(sep)] for a one-character separator. *)
Fixpoint split (sep : ascii) (s : string) : list string :=
  match s with
  | EmptyString => [EmptyString]
  | String c s' =>
      if Ascii.eqb c sep then EmptyString :: split sep s'
      else
        match split sep s' with
        | part :: parts => String c part :: parts
        | [] => [String c EmptyString]
        end
  end.

(** [sep.join(parts)]. *)
Fixpoint join (sep : string) (parts : list string) : string :=
  match parts with
  | [] => EmptyString
  | [part] => part
  | part :: parts' => part ++ sep ++ join sep parts'
  end.

(** [s.replace(old, new)] for a non-empty [old]: the occurrences of [old]
    are taken from the left and do not overlap.  [skip] counts the
    characters of a found occurrence still to pass over. *)
Fixpoint replace_from (old new s : string) (skip : nat) : string :=
  match s with
  | EmptyString => EmptyString
  | String c s' =>
      match skip with
      | S k => replace_from old new s' k
      | O =>
          if startswith s old
          then new ++ replace_from old new s' (String.length old - 1)
          else String c (replace_from old new s' 0)
      end
  end.

Definition replace (old new s : string) : string := replace_from old new s 0.

(** ASCII whitespace, as [str.isspace] and the pattern [\s] see it. *)
Definition is_space (c : ascii) : bool :=
  let n := nat_of_ascii c in
  (Nat.leb 9 n && Nat.leb n 13) || (Nat.leb 28 n && Nat.leb n 32).

Fixpoint lstrip (s : string) : string :=
  match s with
  | String c s' => if is_space c then lstrip s' else s
  | EmptyString => EmptyString
  end.

Fixpoint rstrip (s : string) : string :=
  match s with
  | EmptyString => EmptyString
  | String c s' =>
      match rstrip s' with
      | EmptyString => if is_space c then EmptyString else String c EmptyString
      | r => String c r
      end
  end.

(** [s.strip()]. *)
Definition strip (s : string) : string := rstrip (lstrip s).

(** The text of the lines [ls], a line feed between two of them. *)
Definition lines (ls : list string) : string := join (String lf "") ls.

(** [f"{n:02d}"] on a natural number. *)
Definition format_02d (n : nat) : string :=
  let digits := NilEmpty.string_of_uint (Nat.to_uint n) in
  if Nat.ltb (String.length digits) 2 then "0" ++ digits else digits.


(** ** Regular expressions: the part of [re] the script uses *)

Inductive regex : Type :=
| Eps
| Chr (c : ascii)            (* a literal character *)
| AnyChar                    (* [.] *)
| Space                      (* [\s] *)
| WordChar                   (* [\w] *)
| Bol                        (* [^] *)
| Eol                        (* [$] *)
| Boundary                   (* [\b] *)
| Seq (r1 r2 : regex)
| Alt (r1 r2 : regex)        (* [r1|r2] *)
| Star (r : regex)           (* [r*], greedy *)
| Plus (r : regex)           (* [r+], greedy *)
| Group (i : nat) (r : regex). (* the [i]-th capturing group *)

Record flags : Type := { IGNORECASE : bool; MULTILINE : bool }.

(** A position in the subject: the character before it, the text from it
    on, and the groups captured so far. *)
Record cursor : Type := {
  before : option ascii;
  rest : string;
  groups : list (nat * string)
}.

Definition is_word (c : ascii) : bool :=
  let n := nat_of_ascii c in
  (Nat.leb 48 n && Nat.leb n 57) || (Nat.leb 65 n && Nat.leb n 90)
  || (Nat.leb 97 n && Nat.leb n 122) || Nat.eqb n 95.

Definition lower (c : ascii) : ascii :=
  let n := nat_of_ascii c in
  if Nat.leb 65 n && Nat.leb n 90 then ascii_of_nat (n + 32) else c.

Definition same_char (fl : flags) (a b : ascii) : bool :=
  if IGNORECASE fl then Ascii.eqb (lower a) (lower b) else Ascii.eqb a b.

Definition word_before (c : cursor) : bool :=
  match before c with
  | Some a => is_word a
  | None => false
  end.

Definition word_after (c : cursor) : bool :=
  match rest c with
  | String a _ => is_word a
  | EmptyString => false
  end.

(** One character, when it satisfies [p]. *)
Definition step (p : ascii -> bool) (c : cursor) : option cursor :=
  match rest c with
  | String a s => if p a then Some {| before := Some a; rest := s; groups := groups c |} else None
  | EmptyString => None
  end.

Definition at_bol (fl : flags) (c : cursor) : bool :=
  match before c with
  | None => true
  | Some a => MULTILINE fl && Ascii.eqb a lf
  end.

Definition at_eol (fl : flags) (c : cursor) : bool :=
  match rest c with
  | EmptyString => true
  | String a s =>
      Ascii.eqb a lf && (MULTILINE fl || String.eqb s EmptyString)
  end.

(** The text between two positions of one subject. *)
Definition consumed (c c' : cursor) : string :=
  substring 0 (String.length (rest c) - String.length (rest c')) (rest c).

Definition capture (i : nat) (c c' : cursor) : cursor :=
  {| before := before c'; rest := rest c';
     groups := (i, consumed c c') :: groups c' |}.

Definition advanced (c c' : cursor) : bool :=
  Nat.ltb (String.length (rest c')) (String.length (rest c)).

(** Backtracking matcher: [matches fl r c k] matches [r] at [c] and hands
    the position reached to [k]; when [k] refuses, the next way of
    matching [r] is tried, greedy repetitions giving back one round at a
    time. *)
Fixpoint matches (fl : flags) (r : regex) (c : cursor)
         (k : cursor -> option cursor) {struct r} : option cursor :=
  let repeat :=
    fun (r1 : regex) =>
      fix rounds (fuel : nat) (c : cursor) {struct fuel} : option cursor :=
        match fuel with
        | O => k c
        | S fuel' =>
            match matches fl r1 c
                    (fun c' => if advanced c c' then rounds fuel' c' else None)
            with
            | Some c' => Some c'
            | None => k c
            end
        end in
  match r with
  | Eps => k c
  | Chr a =>
      match step (same_char fl a) c with Some c' => k c' | None => None end
  | AnyChar =>
      match step (fun b => negb (Ascii.eqb b lf)) c with
      | Some c' => k c'
      | None => None
      end
  | Space => match step is_space c with Some c' => k c' | None => None end
  | WordChar => match step is_word c with Some c' => k c' | None => None end
  | Bol => if at_bol fl c then k c else None
  | Eol => if at_eol fl c then k c else None
  | Boundary => if xorb (word_before c) (word_after c) then k c else None
  | Seq r1 r2 => matches fl r1 c (fun c' => matches fl r2 c' k)
  | Alt r1 r2 =>
      match matches fl r1 c k with
      | Some c' => Some c'
      | None => matches fl r2 c k
      end
  | Star r1 => repeat r1 (String.length (rest c)) c
  | Plus r1 =>
      matches fl r1 c (fun c' => repeat r1 (String.length (rest c')) c')
  | Group i r1 => matches fl r1 c (fun c' => k (capture i c c'))
  end.

Definition start_of (s : string) : cursor :=
  {| before := None; rest := s; groups := [] |}.

(** The leftmost match of [r] at or after a position: the position where
    it starts and the position where it ends. *)
Fixpoint search_from (fl : flags) (r : regex) (prev : option ascii)
         (s : string) {struct s} : option (cursor * cursor) :=
  let c := {| before := prev; rest := s; groups := [] |} in
  match matches fl r c Some with
  | Some c' => Some (c, c')
  | None =>
      match s with
      | EmptyString => None
      | String a s' => search_from fl r (Some a) s'
      end
  end.

(** [re.search(r, s, flags)]: the groups of the leftmost match. *)
Definition re_search (fl : flags) (r : regex) (s : string)
  : option (list (nat * string)) :=
  match search_from fl r None s with
  | Some (_, c') => Some (groups c')
  | None => None
  end.

(** [m.group(i)]. *)
Fixpoint group (i : nat) (gs : list (nat * string)) : string :=
  match gs with
  | [] => EmptyString
  | (j, s) :: gs' => if Nat.eqb i j then s else group i gs'
  end.

(** [re.findall(r, s, flags)]: the groups of the successive matches, each
    search starting where the match before it ended (one character
    further after an empty match). *)
Fixpoint findall_from (fuel : nat) (fl : flags) (r : regex)
         (prev : option ascii) (s : string) : list (list (nat * string)) :=
  match fuel with
  | O => []
  | S fuel' =>
      match search_from fl r prev s with
      | None => []
      | Some (c, c') =>
          groups c' ::
          (if advanced c c' then findall_from fuel' fl r (before c') (rest c')
           else
             match rest c' with
             | EmptyString => []
             | String a s' => findall_from fuel' fl r (Some a) s'
             end)
      end
  end.

Definition re_findall (fl : flags) (r : regex) (s : string)
  : list (list (nat * string)) :=
  findall_from (S (String.length s)) fl r None s.

Fixpoint lit (s : string) : regex :=
  match s with
  | EmptyString => Eps
  | String c s' => Seq (Chr c) (lit s')
  end.

Fixpoint sequence (rs : list regex) : regex :=
  match rs with
  | [] => Eps
  | r :: rs' => Seq r (sequence rs')
  end.


(** ** [os.path] on POSIX *)

Definition isabs (p : string) : bool := startswith p "/".

(** [os.path.join(a, b)]. *)
Definition os_path_join (a b : string) : string :=
  if isabs b then b
  else if String.eqb a "" || endswith a "/" then a ++ b
  else a ++ "/" ++ b.

(** One round of the loop of [normpath] over the components. *)
Definition normpath_step (rooted : bool) (new_comps : list string)
           (comp : string) : list string :=
  if String.eqb comp "" || String.eqb comp "." then new_comps
  else if negb (String.eqb comp "..")
          || (negb rooted && match new_comps with [] => true | _ => false end)
          || String.eqb (last new_comps "") ".."
       then (new_comps ++ [comp])%list
  else removelast new_comps.

(** [os.path.normpath(path)]. *)
Definition normpath (path : string) : string :=
  if String.eqb path "" then "."
  else
    let initial_slashes :=
      if startswith path "/" then
        if startswith path "//" && negb (startswith path "///") then 2 else 1
      else 0 in
    let comps :=
      fold_left (normpath_step (negb (Nat.eqb initial_slashes 0)))
                (split "/" path) [] in
    let p := String.concat "" (List.repeat "/" initial_slashes) ++ join "/" comps in
    if String.eqb p "" then "." else p.

(** [os.path.abspath(path)] in the working directory [cwd]. *)
Definition abspath (cwd path : string) : string :=
  normpath (if isabs path then path else os_path_join cwd path).

Fixpoint commonprefix (a b : list string) : list string :=
  match a, b with
  | x :: a', y :: b' => if String.eqb x y then x :: commonprefix a' b' else []
  | _, _ => []
  end.

Definition nonempty (s : string) : bool := negb (String.eqb s "").

(** [os.path.relpath(path, start)] in the working directory [cwd]. *)
Definition relpath (cwd path start : string) : result string :=
  if String.eqb path "" then Raise ValueError
  else
    let start_list := filter nonempty (split "/" (abspath cwd start)) in
    let path_list := filter nonempty (split "/" (abspath cwd path)) in
    let i := List.length (commonprefix start_list path_list) in
    let rel_list :=
      (List.repeat ".." (List.length start_list - i) ++ skipn i path_list)%list in
    match rel_list with
    | [] => Ok "."
    | _ => Ok (join "/" rel_list)
    end.

(* ================================================================== *)
(** ** scripts/update_compliance.py *)

Module UpdateCompliance.

Local Open Scope Z_scope.

(** [calculate_compliance(coverage_data)]. *)
Definition calculate_compliance (coverage_data : value) : result float :=
  stats <- py_get coverage_data "statistics" (VDict []) ;;
  total <- py_get stats "total_scenarios" (VInt 0) ;;
  passed <- py_get stats "passed" (VInt 0) ;;
  if py_eq_zero total then Ok 0%float
  else
    q <- py_truediv passed total ;;
    Ok (PrimFloat.mul q 100%float).

(** [stats[k] += 1]. *)
Definition incr (stats : value) (k : string) : result value :=
  v <- py_getitem stats k ;;
  v' <- py_add1 v ;;
  py_setitem stats k v'.

(** The body of the loop of [update_statistics]. *)
Definition count_scenario (stats : value) (scenario : value) : result value :=
  status <- py_get scenario "status" (VStr "pending") ;;
  if py_eq_str status "pass" then incr stats "passed"
  else if py_eq_str status "fail" then incr stats "failed"
  else if py_eq_str status "skip" then incr stats "skipped"
  else incr stats "pending".

(** [for x in xs: s = body(s, x)]. *)
Fixpoint for_each {S : Type} (body : S -> value -> result S)
         (xs : list value) (s : S) : result S :=
  match xs with
  | [] => Ok s
  | x :: xs' => s' <- body s x ;; for_each body xs' s'
  end.

(** [update_statistics(coverage_data)]: the function mutates its argument
    and returns nothing; the model returns the argument after the call. *)
Definition update_statistics (coverage_data : value) : result value :=
  scenarios <- py_get coverage_data "scenarios" (VList []) ;;
  n <- py_len scenarios ;;
  let stats :=
    VDict [ ("total_scenarios", VInt n);
            ("passed", VInt 0);
            ("failed", VInt 0);
            ("skipped", VInt 0);
            ("pending", VInt 0) ] in
  items <- py_iter scenarios ;;
  stats <- for_each count_scenario items stats ;;
  c <- calculate_compliance (VDict [("statistics", stats)]) ;;
  stats <- py_setitem stats "compliance_percentage" (VFloat c) ;;
  py_setitem coverage_data "statistics" stats.

(** *** [main]

    The run reads and rewrites the file [coverage.json] of the working
    directory and prints a report.  [json.load] and [json.dump] are the
    library's decoder and encoder, parameters of the model.  What the
    surroundings can refuse is an [env]: opening the file for reading,
    opening it for writing, every character beyond the room the device
    has left, and the lines of the report. *)

(** What [sys.stdout] does with the lines printed to it.  It delivers
    them; or, written through, it holds [n] lines and the [print] after
    them raises; or, buffered, it takes every line and the flush of the
    buffer as the interpreter exits fails. *)
Inductive stdout_mode : Type :=
| Delivers
| Refuses (n : nat)
| LostAtExit.

Record env : Type := {
  readable : bool;
  writable : bool;
  room : option nat;
  out : stdout_mode
}.

(** A line of output: what [main] prints, and the interpreter's note of
    an exception it ignored while exiting. *)
Inductive line : Type :=
| Text (s : string)
| Field (label : string) (v : value)
| Fixed2 (label : string) (v : value) (unit : string)
| ErrorLine (label : string) (e : exn)
| ExceptionIgnored (e : exn).

(** [coverage.json] (absent, or its text) and the two output streams. *)
Record world : Type := {
  file : option string;
  stdout : list line;
  stderr : list line
}.

Definition M (A : Type) : Type := world -> world * result A.

Definition mbind {A B : Type} (m : M A) (k : A -> M B) : M B :=
  fun w =>
    match m w with
    | (w', Ok a) => k a w'
    | (w', Raise e) => (w', Raise e)
    end.

Notation "x <~ m ;; k" := (mbind m (fun x => k))
  (at level 61, m at next level, right associativity).

Definition lift {A : Type} (r : result A) : M A := fun w => (w, r).

(** [open('coverage.json', 'r')] and reading it to the end. *)
Definition open_read (e : env) : M string :=
  fun w =>
    match file w with
    | Some text => if readable e then (w, Ok text) else (w, Raise OSError)
    | None => (w, Raise OSError)
    end.

(** [open('coverage.json', 'w')]: the file is emptied as it is opened. *)
Definition open_write (e : env) : M unit :=
  fun w =>
    if writable e
    then ({| file := Some ""; stdout := stdout w; stderr := stderr w |}, Ok tt)
    else (w, Raise OSError).

(** Writing [text] to the opened file and closing it: the device takes
    the characters it has room for. *)
Definition write (e : env) (text : string) : M unit :=
  fun w =>
    match room e with
    | Some n =>
        if Nat.ltb n (String.length text)
        then ({| file := Some (substring 0 n text);
                 stdout := stdout w; stderr := stderr w |}, Raise OSError)
        else ({| file := Some text; stdout := stdout w; stderr := stderr w |},
              Ok tt)
    | None =>
        ({| file := Some text; stdout := stdout w; stderr := stderr w |}, Ok tt)
    end.

(** [print(...)] to [sys.stdout]. *)
Definition print (e : env) (l : line) : M unit :=
  fun w =>
    let w' :=
      {| file := file w; stdout := (stdout w ++ [l])%list;
         stderr := stderr w |} in
    match out e with
    | Refuses n =>
        if Nat.ltb (List.length (stdout w)) n
        then (w', Ok tt)
        else (w, Raise OSError)
    | _ => (w', Ok tt)
    end.

Definition eprint (l : line) (w : world) : world :=
  {| file := file w; stdout := stdout w; stderr := (stderr w ++ [l])%list |}.

Section Main.

Variable json_load : string -> result value.
Variable json_dump : value -> string.

(** The [try] block of [main]. *)
Definition main_try (e : env) : M unit :=
  text <~ open_read e ;;
  coverage_data <~ lift (json_load text) ;;
  coverage_data <~ lift (update_statistics coverage_data) ;;
  _ <~ open_write e ;;
  _ <~ write e (json_dump coverage_data) ;;
  stats <~ lift (py_getitem coverage_data "statistics") ;;
  _ <~ print e (Text "TCK Compliance Report:") ;;
  v <~ lift (py_getitem stats "total_scenarios") ;;
  _ <~ print e (Field "  Total Scenarios: " v) ;;
  v <~ lift (py_getitem stats "passed") ;;
  _ <~ print e (Field "  Passed: " v) ;;
  v <~ lift (py_getitem stats "failed") ;;
  _ <~ print e (Field "  Failed: " v) ;;
  v <~ lift (py_getitem stats "skipped") ;;
  _ <~ print e (Field "  Skipped: " v) ;;
  v <~ lift (py_getitem stats "pending") ;;
  _ <~ print e (Field "  Pending: " v) ;;
  v <~ lift (py_getitem stats "compliance_percentage") ;;
  print e (Fixed2 "  Compliance: " v "%").

(** [main()] up to [sys.exit]: the [try] block and its handler. *)
Definition main_body (e : env) (w : world) : world * Z :=
  match main_try e w with
  | (w', Ok _) => (w', 0)
  | (w', Raise err) => (eprint (ErrorLine "Error updating compliance: " err) w', 1)
  end.

(** The interpreter exits after a run started in [w0]: it flushes what
    [sys.stdout] has buffered since.  When the flush fails the lines are
    lost, the interpreter notes the exception on [sys.stderr] and the exit
    status is 120, whatever it was. *)
Definition finalize (e : env) (w0 : world) (r : world * Z) : world * Z :=
  match out e with
  | LostAtExit =>
      if Nat.ltb (List.length (stdout w0)) (List.length (stdout (fst r)))
      then ({| file := file (fst r); stdout := stdout w0;
               stderr := (stderr (fst r) ++ [ExceptionIgnored OSError])%list |},
            120)
      else r
  | _ => r
  end.

(** [main()]: the world it leaves and the exit status of the process. *)
Definition main (e : env) (w : world) : world * Z :=
  finalize e w (main_body e w).

End Main.

End UpdateCompliance.


(* ================================================================== *)
(** ** parse_tck_scenarios.py *)

Module ParseTck.

(** The dict [scenario_info] of one scenario. *)
Record scenario : Type := {
  scenario_id : string;
  scenario_name : string;
  scenario_type : string;
  feature_name : string;
  file_path : string;
  language_area : string;
  requires_runtime : bool
}.

Definition tck_features_dir : string := "openCypher-master/tck/features".

Definition RE_MULTILINE : flags := {| IGNORECASE := false; MULTILINE := true |}.
Definition RE_IGNORECASE : flags := {| IGNORECASE := true; MULTILINE := false |}.

(** [^Feature:\s*(.+)$] *)
Definition feature_pattern : regex :=
  sequence [Bol; lit "Feature:"; Star Space; Group 1 (Plus AnyChar); Eol].

(** [^  (Scenario|Scenario Outline):\s*(.+)$] *)
Definition scenario_pattern : regex :=
  sequence [Bol; lit "  ";
       Group 1 (Alt (lit "Scenario") (lit "Scenario Outline"));
       lit ":"; Star Space; Group 2 (Plus AnyChar); Eol].

(** [determine_language_area(file_path)]. *)
Definition determine_language_area (file_path : string) : string :=
  let parts := split "/" file_path in
  if Nat.leb 2 (List.length parts) then
    let main_area := nth 0 parts "" in
    if Nat.leb 3 (List.length parts) then
      let sub_area := nth 1 parts "" in
      main_area ++ "." ++ sub_area
    else main_area
  else "unknown".

(** [\b phrase \b] *)
Definition phrase (s : string) : regex := sequence [Boundary; lit s; Boundary].

(** [\b head \w+ tail \b] *)
Definition phrase_w (head tail : string) : regex :=
  sequence [Boundary; lit head; Plus WordChar; lit tail; Boundary].

Definition runtime_indicators : list regex :=
  [ phrase "And the result should be";
    phrase "Then the result should be";
    phrase "And the side effects should be";
    phrase "Then the side effects should be";
    phrase "When executing query";
    phrase "And executing query";
    phrase_w "Then a " "Error should be raised";
    phrase_w "And a " "Error should be raised";
    phrase "no side effects";
    phrase "rows in any order";
    phrase "rows in order" ].

Definition parse_validate_indicators : list regex :=
  [ phrase "Then a SyntaxError should be raised";
    phrase "And a SyntaxError should be raised";
    phrase "should fail to parse";
    phrase "parse error" ].

(** [\bGiven an empty graph\b|\bGiven any graph\b|\bWhen executing query\b] *)
Definition setup_pattern : regex :=
  Alt (phrase "Given an empty graph")
      (Alt (phrase "Given any graph") (phrase "When executing query")).

(** [re.search(indicator, content, re.IGNORECASE)] as a condition. *)
Definition found (indicator : regex) (content : string) : bool :=
  match re_search RE_IGNORECASE indicator content with
  | Some _ => true
  | None => false
  end.

(** [check_requires_runtime(content, scenario_name)]. *)
Definition check_requires_runtime (content scenario_name : string) : bool :=
  if existsb (fun indicator => found indicator content)
             parse_validate_indicators then false
  else if existsb (fun indicator => found indicator content)
                  runtime_indicators then true
  else if found setup_pattern content then true
  else false.

(** The identifier of the scenario that [enumerate] numbers [i]. *)
Definition scenario_id_of (relative_path : string) (i : nat) : string :=
  let path_parts := split "/" (replace ".feature" "" relative_path) in
  join "-" path_parts ++ "-" ++ format_02d (i + 1).

(** The body of the loop of [parse_feature_file]. *)
Definition scenario_info (cwd path content feature : string) (i : nat)
           (m : list (nat * string)) : result scenario :=
  let scenario_type := group 1 m in
  let scenario_name := group 2 m in
  relative_path <- relpath cwd path tck_features_dir ;;
  Ok {| scenario_id := scenario_id_of relative_path i;
        scenario_name := strip scenario_name;
        scenario_type := scenario_type;
        feature_name := feature;
        file_path := relative_path;
        language_area := determine_language_area relative_path;
        requires_runtime := check_requires_runtime content scenario_name |}.

(** [for i, x in enumerate(xs): scenarios.append(body(i, x))], from [i]. *)
Fixpoint for_enumerate {A B : Type} (body : nat -> A -> result B) (i : nat)
         (xs : list A) : result (list B) :=
  match xs with
  | [] => Ok []
  | x :: xs' =>
      y <- body i x ;;
      ys <- for_enumerate body (S i) xs' ;;
      Ok (y :: ys)
  end.

(** [parse_feature_file(file_path)], in the working directory [cwd];
    [read p] is the text of the file [p], or what opening and decoding it
    raises. *)
Definition parse_feature_file (read : string -> result string)
           (cwd path : string) : result (list scenario) :=
  content <- read path ;;
  let feature :=
    match re_search RE_MULTILINE feature_pattern content with
    | Some feature_match => strip (group 1 feature_match)
    | None => "Unknown"
    end in
  let scenarios_found := re_findall RE_MULTILINE scenario_pattern content in
  for_enumerate (scenario_info cwd path content feature) 0 scenarios_found.

(** [all_scenarios] as the walk of [main] leaves it: [walk] is what
    [os.walk(tck_features_dir)] yields, the directories with the names of
    their files; a file that raises is passed over. *)
Definition all_scenarios (read : string -> result string) (cwd : string)
           (walk : list (string * list string)) : list scenario :=
  flat_map
    (fun root_files =>
       flat_map
         (fun file =>
            if endswith file ".feature" then
              match parse_feature_file read cwd
                      (os_path_join (fst root_files) file) with
              | Ok scenarios => scenarios
              | Raise _ => []
              end
            else [])
         (snd root_files))
    walk.

End ParseTck.

(* ================================================================== *)
(** ** parse_tck_scenarios.py: the manifest of [main] *)

Module ParseTckMain.
Import ParseTck.

(** [commit_info]. *)
Record commit_info : Type := {
  repository : string;
  commit_hash : string;
  total_scenarios : Z
}.

(** [scenarios_by_area]: the areas in the order they are first met, each
    with its scenarios. *)
Definition groups : Type := list (string * list scenario).

(** [area in scenarios_by_area]. *)
Fixpoint has_area (d : groups) (area : string) : bool :=
  match d with
  | [] => false
  | (a, _) :: d' => String.eqb a area || has_area d' area
  end.

(** [scenarios_by_area[area].append(scenario)]. *)
Fixpoint append_to (d : groups) (area : string) (s : scenario) : groups :=
  match d with
  | [] => []
  | (a, l) :: d' =>
      if String.eqb a area then (a, (l ++ [s])%list) :: d'
      else (a, l) :: append_to d' area s
  end.

(** The body of the grouping loop. *)
Definition group_scenario (d : groups) (s : scenario) : groups :=
  let area := language_area s in
  let d := if has_area d area then d else (d ++ [(area, [])])%list in
  append_to d area s.

Definition scenarios_by_area (all_scenarios : list scenario) : groups :=
  fold_left group_scenario all_scenarios [].

(** One entry of [summary['language_areas']]. *)
Record area_stats : Type := {
  area_total : Z;
  runtime_execution : Z;
  parse_validate_only : Z
}.

Definition area_summary (scenarios : list scenario) : area_stats :=
  let runtime_count :=
    Z.of_nat (List.length (filter requires_runtime scenarios)) in
  let parse_count := (Z.of_nat (List.length scenarios) - runtime_count)%Z in
  {| area_total := Z.of_nat (List.length scenarios);
     runtime_execution := runtime_count;
     parse_validate_only := parse_count |}.

(** [summary]. *)
Record summary : Type := {
  summary_commit_info : commit_info;
  language_areas : list (string * area_stats);
  summary_scenarios_by_area : groups
}.

(** [(x['language_area'], x['scenario_id'])]. *)
Definition sort_key (s : scenario) : string * string :=
  (language_area s, scenario_id s).

(** [k1 < k2] on two such tuples. *)
Definition key_lt (k1 k2 : string * string) : bool :=
  if String.eqb (fst k1) (fst k2) then String.ltb (snd k1) (snd k2)
  else String.ltb (fst k1) (fst k2).

(** [sorted(xs, key=...)].  The sort is stable, which fixes its result;
    the model inserts each scenario behind the ones that are not above
    it. *)
Fixpoint insert_sorted (x : scenario) (l : list scenario) : list scenario :=
  match l with
  | [] => [x]
  | y :: l' =>
      if key_lt (sort_key x) (sort_key y) then x :: l
      else y :: insert_sorted x l'
  end.

Definition sorted (xs : list scenario) : list scenario :=
  fold_left (fun acc x => insert_sorted x acc) xs [].

Definition csv_header : list string :=
  [ "scenario_id"; "scenario_name"; "scenario_type"; "feature_name";
    "file_path"; "language_area"; "requires_runtime" ].

Definition csv_row (s : scenario) : list string :=
  [ scenario_id s; scenario_name s; scenario_type s; feature_name s;
    file_path s; language_area s;
    if requires_runtime s then "True" else "False" ].

(** What [main] writes: the summary of [tck_scenarios_manifest.json] and
    the rows of [tck_scenarios_manifest.csv]; nothing when the features
    directory does not exist. *)
Definition main (exists_dir : bool) (read : string -> result string)
           (cwd : string) (walk : list (string * list string))
  : option (summary * list (list string)) :=
  if negb exists_dir then None
  else
    let all := all_scenarios read cwd walk in
    let info :=
      {| repository := "opencypher/openCypher";
         commit_hash := "7db2677dd3c6c87cc8d6b35fa7a32e5054ef6ebf";
         total_scenarios := Z.of_nat (List.length all) |} in
    let by_area := scenarios_by_area all in
    Some ({| summary_commit_info := info;
             language_areas :=
               map (fun g => (fst g, area_summary (snd g))) by_area;
             summary_scenarios_by_area := by_area |},
          csv_header :: map csv_row (sorted all)).

End ParseTckMain.

(* ================================================================== *)
(** ** scripts/demo_coverage_system.py: what [main] reads off the ledger *)

Module DemoCoverage.

Local Open Scope Z_scope.

(** One line of "3. Scenarios by Status": the count and the percentage
    the format string shows. *)
Inductive share_line : Type :=
| Share (label : string) (count : value) (percent : float).

(** The two values of one such line:
    [stats[key]] and [stats[key]/stats['total_scenarios']*100]. *)
Definition share (stats : value) (key : string) : result (value * float) :=
  count <- py_getitem stats key ;;
  part <- py_getitem stats key ;;
  total <- py_getitem stats "total_scenarios" ;;
  q <- py_truediv part total ;;
  Ok (count, PrimFloat.mul q 100%float).

(** The four lines printed after [stats = coverage['statistics']], when
    none of them raises. *)
Definition status_breakdown (coverage : value) : result (list share_line) :=
  stats <- py_getitem coverage "statistics" ;;
  passed <- share stats "passed" ;;
  failed <- share stats "failed" ;;
  skipped <- share stats "skipped" ;;
  pending <- share stats "pending" ;;
  Ok [ Share "Passed" (fst passed) (snd passed);
       Share "Failed" (fst failed) (snd failed);
       Share "Skipped" (fst skipped) (snd skipped);
       Share "Pending" (fst pending) (snd pending) ].

(** [s.get('status') == 'pending' and s.get('priority') == 'high']. *)
Definition pending_high (s : value) : result bool :=
  status <- py_get s "status" VNone ;;
  if py_eq_str status "pending" then
    priority <- py_get s "priority" VNone ;;
    Ok (py_eq_str priority "high")
  else Ok false.

(** [[x for x in xs if cond(x)]]. *)
Fixpoint comprehension (cond : value -> result bool) (xs : list value)
  : result (list value) :=
  match xs with
  | [] => Ok []
  | x :: xs' =>
      keep <- cond x ;;
      rest <- comprehension cond xs' ;;
      Ok (if keep then x :: rest else rest)
  end.

(** [high_priority_pending]. *)
Definition high_priority_pending (coverage : value) : result (list value) :=
  scenarios <- py_getitem coverage "scenarios" ;;
  items <- py_iter scenarios ;;
  selected <- comprehension pending_high items ;;
  Ok (firstn 5 selected).

End DemoCoverage.

(* ================================================================== *)
(** * Helper lemmas on the error monad *)

Lemma bind_ok {A B : Type} (a : A) (k : A -> result B) : bind (Ok a) k = k a.
Proof. reflexivity. Qed.

Lemma bind_inv {A B : Type} (r : result A) (k : A -> result B) (b : B) :
  bind r k = Ok b -> exists a, r = Ok a /\ k a = Ok b.
Proof.
  destruct r as [a|e]; simpl; intros H.
  - exists a. split; [reflexivity | exact H].
  - discriminate H.
Qed.

(* ================================================================== *)
(** * Properties of the statistics recomputation *)

Module UpdateComplianceSpec.
Import UpdateCompliance.

Local Open Scope Z_scope.

(** ** Ledgers *)

Definition is_dict (o : value) : bool :=
  match o with
  | VDict _ => true
  | _ => false
  end.

(** The value of [coverage_data.get('scenarios', [])] on a dict. *)
Definition scenarios_of (d : dict) : value :=
  match dict_lookup d "scenarios" with
  | Some v => v
  | None => VList []
  end.

(** A ledger: an object whose ['scenarios'], when present, is a list of
    objects. *)
Definition wf_ledger (coverage_data : value) : bool :=
  match coverage_data with
  | VDict d =>
      match scenarios_of d with
      | VList es => forallb is_dict es
      | _ => false
      end
  | _ => false
  end.

(** The ledger entries. *)
Definition entries (coverage_data : value) : list value :=
  match coverage_data with
  | VDict d =>
      match scenarios_of d with
      | VList es => es
      | _ => []
      end
  | _ => []
  end.

(** ** The four counters *)

Inductive counter : Type := Passed | Failed | Skipped | Pending.

Definition counter_eqb (a b : counter) : bool :=
  match a, b with
  | Passed, Passed | Failed, Failed | Skipped, Skipped | Pending, Pending => true
  | _, _ => false
  end.

(** The counter of an entry: ['pass'], ['fail'] and ['skip'] have their
    own, any other status and a missing status are pending. *)
Definition counter_of (entry : value) : counter :=
  match entry with
  | VDict d =>
      match dict_lookup d "status" with
      | Some (VStr s) =>
          if String.eqb s "pass" then Passed
          else if String.eqb s "fail" then Failed
          else if String.eqb s "skip" then Skipped
          else Pending
      | _ => Pending
      end
  | _ => Pending
  end.

(** How many entries count into [c]. *)
Definition tally (c : counter) (es : list value) : Z :=
  Z.of_nat (List.length (filter (fun e => counter_eqb (counter_of e) c) es)).

(** [passed / total * 100], and [0.0] on no scenario. *)
Definition percentage (passed total : Z) : float :=
  if Z.eqb total 0 then 0%float
  else PrimFloat.mul (int_truediv passed total) 100%float.

Definition counters (n p f s q : Z) : value :=
  VDict [ ("total_scenarios", VInt n);
          ("passed", VInt p);
          ("failed", VInt f);
          ("skipped", VInt s);
          ("pending", VInt q) ].

Definition statistics_block (n p f s q : Z) (c : float) : value :=
  VDict [ ("total_scenarios", VInt n);
          ("passed", VInt p);
          ("failed", VInt f);
          ("skipped", VInt s);
          ("pending", VInt q);
          ("compliance_percentage", VFloat c) ].

(** The statistics block of a list of entries. *)
Definition statistics_of (es : list value) : value :=
  statistics_block (Z.of_nat (List.length es))
    (tally Passed es) (tally Failed es) (tally Skipped es) (tally Pending es)
    (percentage (tally Passed es) (Z.of_nat (List.length es))).

(** ** The loop *)

Definition hit (c : counter) (e : value) : Z :=
  if counter_eqb (counter_of e) c then 1 else 0.

Lemma tally_nil (c : counter) : tally c [] = 0.
Proof. reflexivity. Qed.

Lemma tally_cons (c : counter) (e : value) (es : list value) :
  tally c (e :: es) = hit c e + tally c es.
Proof.
  unfold tally, hit. simpl filter.
  destruct (counter_eqb (counter_of e) c); simpl List.length; lia.
Qed.

Lemma tally_nonneg (c : counter) (es : list value) : 0 <= tally c es.
Proof. unfold tally. lia. Qed.

Lemma tally_total (es : list value) :
  tally Passed es + tally Failed es + tally Skipped es + tally Pending es
  = Z.of_nat (List.length es).
Proof.
  induction es as [|e es IH].
  - reflexivity.
  - rewrite !tally_cons. simpl List.length. unfold hit.
    destruct (counter_of e); simpl counter_eqb; lia.
Qed.

Lemma count_scenario_hit (n p f s q : Z) (e : value) :
  is_dict e = true ->
  count_scenario (counters n p f s q) e
  = Ok (counters n (p + hit Passed e) (f + hit Failed e)
                   (s + hit Skipped e) (q + hit Pending e)).
Proof.
  destruct e as [| | | | |l|d]; try discriminate. intros _.
  unfold count_scenario, hit, counter_of, py_get.
  destruct (dict_lookup d "status") as [[| | | |st| |]|];
    rewrite bind_ok; unfold py_eq_str;
    try (cbn; rewrite !Z.add_0_r; reflexivity).
  destruct (String.eqb st "pass");
    [cbn; rewrite !Z.add_0_r; reflexivity|].
  destruct (String.eqb st "fail");
    [cbn; rewrite !Z.add_0_r; reflexivity|].
  destruct (String.eqb st "skip");
    cbn; rewrite !Z.add_0_r; reflexivity.
Qed.

Lemma for_each_tally (es : list value) :
  forallb is_dict es = true ->
  forall n p f s q,
    for_each count_scenario es (counters n p f s q)
    = Ok (counters n (p + tally Passed es) (f + tally Failed es)
                     (s + tally Skipped es) (q + tally Pending es)).
Proof.
  induction es as [|e es IH]; intros Hes n p f s q.
  - simpl. rewrite !tally_nil, !Z.add_0_r. reflexivity.
  - simpl in Hes. apply andb_prop in Hes. destruct Hes as [He Hes].
    simpl for_each. rewrite (count_scenario_hit n p f s q e He), bind_ok.
    rewrite (IH Hes). rewrite !tally_cons, !Z.add_assoc. reflexivity.
Qed.

(** ** The percentage *)

Lemma float_overflow_large : 1 < float_overflow.
Proof. vm_compute. reflexivity. Qed.

Lemma py_truediv_counts (p n : Z) :
  0 <= p <= n -> n <> 0 ->
  py_truediv (VInt p) (VInt n) = Ok (int_truediv p n).
Proof.
  intros Hp Hn. unfold py_truediv, as_number.
  destruct (Z.eqb_spec n 0) as [E|_]; [contradiction|].
  pose proof float_overflow_large as Hbig.
  destruct (Z.leb_spec (float_overflow * Z.abs n) (Z.abs p)) as [Hle|_];
    [|reflexivity].
  exfalso. nia.
Qed.

Lemma calculate_compliance_counters (n p f s q : Z) :
  0 <= p <= n ->
  calculate_compliance (VDict [("statistics", counters n p f s q)])
  = Ok (percentage p n).
Proof.
  intros Hp. unfold calculate_compliance, counters, percentage.
  cbn [py_get dict_lookup String.eqb Ascii.eqb Bool.eqb bind].
  unfold py_eq_zero, as_number.
  destruct (Z.eqb_spec n 0) as [E|Hn]; [reflexivity|].
  rewrite (py_truediv_counts p n Hp Hn). reflexivity.
Qed.

(** ** The recomputation as a function of the scenarios *)

(** What [update_statistics] computes between reading ['scenarios'] and
    storing ['statistics']. *)
Definition recompute (scenarios : value) : result value :=
  n <- py_len scenarios ;;
  items <- py_iter scenarios ;;
  stats <- for_each count_scenario items (counters n 0 0 0 0) ;;
  c <- calculate_compliance (VDict [("statistics", stats)]) ;;
  py_setitem stats "compliance_percentage" (VFloat c).

Lemma update_statistics_dict (d : dict) :
  update_statistics (VDict d)
  = bind (recompute (scenarios_of d))
         (fun stats => Ok (VDict (dict_set d "statistics" stats))).
Proof.
  unfold update_statistics, recompute, py_get, scenarios_of, counters.
  destruct (dict_lookup d "scenarios") as [v|]; rewrite bind_ok.
  - destruct (py_len v) as [n|e]; [|reflexivity]. rewrite !bind_ok.
    destruct (py_iter v) as [items|e]; [|reflexivity]. rewrite !bind_ok.
    destruct (for_each count_scenario items _) as [st|e]; [|reflexivity].
    rewrite !bind_ok.
    destruct (calculate_compliance _) as [c|e]; [|reflexivity].
    rewrite !bind_ok.
    destruct (py_setitem st "compliance_percentage" (VFloat c)); reflexivity.
  - reflexivity.
Qed.

Lemma update_statistics_ok_dict (coverage_data d' : value) :
  update_statistics coverage_data = Ok d' ->
  exists d, coverage_data = VDict d.
Proof.
  destruct coverage_data as [| | | | | |d]; try discriminate.
  intros _. exists d. reflexivity.
Qed.

Lemma recompute_entries (es : list value) :
  forallb is_dict es = true ->
  recompute (VList es) = Ok (statistics_of es).
Proof.
  intros Hes. unfold recompute. simpl py_len. simpl py_iter. rewrite !bind_ok.
  rewrite (for_each_tally es Hes), bind_ok. rewrite !Z.add_0_l.
  rewrite calculate_compliance_counters, bind_ok.
  - reflexivity.
  - pose proof (tally_total es). pose proof (tally_nonneg Passed es).
    pose proof (tally_nonneg Failed es). pose proof (tally_nonneg Skipped es).
    pose proof (tally_nonneg Pending es). lia.
Qed.

Lemma update_statistics_wf (coverage_data : value) :
  wf_ledger coverage_data = true ->
  exists d,
    coverage_data = VDict d /\
    update_statistics coverage_data
    = Ok (VDict (dict_set d "statistics" (statistics_of (entries coverage_data)))).
Proof.
  destruct coverage_data as [| | | | | |d]; try discriminate.
  intros Hwf. exists d. split; [reflexivity|].
  rewrite update_statistics_dict. unfold wf_ledger in Hwf. unfold entries.
  destruct (scenarios_of d) as [| | | | |es|]; try discriminate.
  rewrite (recompute_entries es Hwf). reflexivity.
Qed.

(** ** Dictionaries *)

Lemma dict_lookup_set_same (d : dict) (k : string) (v : value) :
  dict_lookup (dict_set d k v) k = Some v.
Proof.
  induction d as [|[k' v'] d IH]; simpl.
  - rewrite String.eqb_refl. reflexivity.
  - destruct (String.eqb k' k) eqn:E; simpl; rewrite E; [reflexivity | exact IH].
Qed.

Lemma dict_lookup_set_other (d : dict) (k k' : string) (v : value) :
  k' <> k -> dict_lookup (dict_set d k v) k' = dict_lookup d k'.
Proof.
  intros Hk. induction d as [|[k0 v0] d IH]; simpl.
  - destruct (String.eqb_spec k k'); [congruence | reflexivity].
  - destruct (String.eqb_spec k0 k) as [E|E]; simpl.
    + subst k0. destruct (String.eqb_spec k k'); [congruence | reflexivity].
    + rewrite IH. reflexivity.
Qed.

Lemma dict_set_set (d : dict) (k : string) (v v' : value) :
  dict_set (dict_set d k v) k v' = dict_set d k v'.
Proof.
  induction d as [|[k0 v0] d IH]; simpl.
  - rewrite String.eqb_refl. reflexivity.
  - destruct (String.eqb k0 k) eqn:E; simpl; rewrite E; [reflexivity|].
    rewrite IH. reflexivity.
Qed.

(** The bindings of the keys other than [k], in order. *)
Definition others (k : string) (d : dict) : dict :=
  filter (fun kv => negb (String.eqb (fst kv) k)) d.

Lemma others_set (d : dict) (k : string) (v : value) :
  others k (dict_set d k v) = others k d.
Proof.
  unfold others. induction d as [|[k0 v0] d IH]; simpl.
  - rewrite String.eqb_refl. reflexivity.
  - destruct (String.eqb k0 k) eqn:E; simpl; rewrite E; simpl; [reflexivity|].
    rewrite IH. reflexivity.
Qed.

Lemma scenarios_of_set (d : dict) (v : value) :
  scenarios_of (dict_set d "statistics" v) = scenarios_of d.
Proof.
  unfold scenarios_of. rewrite dict_lookup_set_other; [reflexivity|].
  discriminate.
Qed.

(** ** Example ledgers *)

Definition entry (id status : string) : value :=
  VDict [ ("scenario_id", VStr id);
          ("status", VStr status);
          ("priority", VStr "high") ].

(** Statuses [pass, pass, fail, pending], with a stale statistics block. *)
Definition ledger4 : value :=
  VDict [ ("scenarios",
           VList [ entry "expressions-boolean-01" "pass";
                   entry "expressions-boolean-02" "pass";
                   entry "expressions-boolean-03" "fail";
                   entry "expressions-boolean-04" "pending" ]);
          ("statistics", VDict [("total_scenarios", VInt 7)]);
          ("generated", VStr "2024") ].

Definition ledger4_recomputed : value :=
  VDict [ ("scenarios",
           VList [ entry "expressions-boolean-01" "pass";
                   entry "expressions-boolean-02" "pass";
                   entry "expressions-boolean-03" "fail";
                   entry "expressions-boolean-04" "pending" ]);
          ("statistics", statistics_block 4 2 1 0 1 50%float);
          ("generated", VStr "2024") ].

(** No scenario at all. *)
Definition ledger0 : value := VDict [("scenarios", VList [])].

(** ** Claims *)

(** C3: on every ledger the recomputation stores a statistics block whose
    [total_scenarios] is the number of entries and whose four counters
    tally the entries by status: ['pass'] into [passed], ['fail'] into
    [failed], ['skip'] into [skipped], any other or missing status into
    [pending]; the four counters add up to [total_scenarios].  Statuses
    [pass, pass, fail, pending] recompute to total 4, passed 2, failed 1,
    skipped 0, pending 1, compliance percentage 50.0. *)
Theorem update_statistics_counts :
  (forall coverage_data : value,
      wf_ledger coverage_data = true ->
      exists d : dict,
        coverage_data = VDict d /\
        update_statistics coverage_data
        = Ok (VDict (dict_set d "statistics"
                       (statistics_of (entries coverage_data)))) /\
        tally Passed (entries coverage_data)
        + tally Failed (entries coverage_data)
        + tally Skipped (entries coverage_data)
        + tally Pending (entries coverage_data)
        = Z.of_nat (List.length (entries coverage_data)))
  /\ update_statistics ledger4 = Ok ledger4_recomputed.
Proof.
  split.
  - intros coverage_data Hwf.
    destruct (update_statistics_wf coverage_data Hwf) as [d [Hd Hup]].
    exists d. repeat split; [exact Hd | exact Hup | apply tally_total].
  - vm_compute. reflexivity.
Qed.

Lemma update_statistics_counts_witness :
  wf_ledger ledger4 = true /\
  exists d : dict,
    ledger4 = VDict d /\
    update_statistics ledger4
    = Ok (VDict (dict_set d "statistics" (statistics_of (entries ledger4)))) /\
    tally Passed (entries ledger4) + tally Failed (entries ledger4)
    + tally Skipped (entries ledger4) + tally Pending (entries ledger4)
    = Z.of_nat (List.length (entries ledger4)).
Proof.
  split.
  - reflexivity.
  - apply (proj1 update_statistics_counts ledger4). reflexivity.
Defined.

(** C4: the recomputation is idempotent.  Running it on its own result
    gives that result again, also when the first run raises; and on every
    ledger the first run does return. *)
Theorem update_statistics_idempotent (coverage_data : value) :
  bind (update_statistics coverage_data) update_statistics
  = update_statistics coverage_data
  /\ (wf_ledger coverage_data = true ->
      exists d' : value,
        update_statistics coverage_data = Ok d' /\
        update_statistics d' = Ok d').
Proof.
  assert (Hidem : bind (update_statistics coverage_data) update_statistics
                  = update_statistics coverage_data).
  { destruct coverage_data as [| | | | | |d]; try reflexivity.
    rewrite update_statistics_dict.
    destruct (recompute (scenarios_of d)) as [st|e] eqn:Hst; [|reflexivity].
    simpl bind. rewrite update_statistics_dict, scenarios_of_set, Hst.
    simpl bind. rewrite dict_set_set. reflexivity. }
  split; [exact Hidem|].
  intros Hwf. destruct (update_statistics_wf coverage_data Hwf) as [d [_ Hup]].
  eexists. split; [exact Hup|].
  rewrite Hup in Hidem. exact Hidem.
Qed.

Lemma update_statistics_idempotent_witness :
  wf_ledger ledger4 = true /\
  exists d' : value,
    update_statistics ledger4 = Ok d' /\ update_statistics d' = Ok d'.
Proof.
  split.
  - reflexivity.
  - apply (proj2 (update_statistics_idempotent ledger4)). reflexivity.
Defined.

(** C5: on a ledger with no scenario the recomputation returns, without a
    division error, and stores compliance percentage 0.0; on a ledger with
    scenarios it stores [passed / total_scenarios * 100], computed on the
    [passed] and [total_scenarios] of the block it stores. *)
Theorem compliance_percentage_guarded (coverage_data : value) :
  wf_ledger coverage_data = true ->
  exists (d' block : value) (passed total : Z) (c : float),
    update_statistics coverage_data = Ok d' /\
    py_getitem d' "statistics" = Ok block /\
    py_getitem block "total_scenarios" = Ok (VInt total) /\
    py_getitem block "passed" = Ok (VInt passed) /\
    py_getitem block "compliance_percentage" = Ok (VFloat c) /\
    total = Z.of_nat (List.length (entries coverage_data)) /\
    (entries coverage_data = [] -> c = 0%float) /\
    (entries coverage_data <> [] ->
     py_truediv (VInt passed) (VInt total) = Ok (int_truediv passed total) /\
     c = PrimFloat.mul (int_truediv passed total) 100%float).
Proof.
  intros Hwf. destruct (update_statistics_wf coverage_data Hwf) as [d [_ Hup]].
  set (es := entries coverage_data) in *.
  exists (VDict (dict_set d "statistics" (statistics_of es))), (statistics_of es),
    (tally Passed es), (Z.of_nat (List.length es)),
    (percentage (tally Passed es) (Z.of_nat (List.length es))).
  split; [exact Hup|]. split.
  { unfold py_getitem. rewrite dict_lookup_set_same. reflexivity. }
  split; [reflexivity|]. split; [reflexivity|]. split; [reflexivity|].
  split; [reflexivity|]. split.
  - intros Hnil. rewrite Hnil. reflexivity.
  - intros Hne.
    assert (Hlen : Z.of_nat (List.length es) <> 0).
    { destruct es; [congruence | simpl List.length; lia]. }
    split.
    + apply py_truediv_counts; [|exact Hlen].
      pose proof (tally_total es). pose proof (tally_nonneg Passed es).
      pose proof (tally_nonneg Failed es). pose proof (tally_nonneg Skipped es).
      pose proof (tally_nonneg Pending es). lia.
    + unfold percentage. destruct (Z.eqb_spec (Z.of_nat (List.length es)) 0);
        [contradiction | reflexivity].
Qed.

Lemma compliance_percentage_guarded_witness :
  wf_ledger ledger0 = true /\
  exists (d' block : value) (passed total : Z) (c : float),
    update_statistics ledger0 = Ok d' /\
    py_getitem d' "statistics" = Ok block /\
    py_getitem block "total_scenarios" = Ok (VInt total) /\
    py_getitem block "passed" = Ok (VInt passed) /\
    py_getitem block "compliance_percentage" = Ok (VFloat c) /\
    total = Z.of_nat (List.length (entries ledger0)) /\
    (entries ledger0 = [] -> c = 0%float) /\
    (entries ledger0 <> [] ->
     py_truediv (VInt passed) (VInt total) = Ok (int_truediv passed total) /\
     c = PrimFloat.mul (int_truediv passed total) 100%float).
Proof.
  split.
  - reflexivity.
  - apply (compliance_percentage_guarded ledger0). reflexivity.
Defined.

(** C8: a recomputation that returns has changed the ['statistics'] key
    of the ledger object only.  The value under every other top-level key
    is the one it was, ['scenarios'] and so every entry with all its
    fields among them, and the bindings of the other keys are the same in
    the same order. *)
Theorem update_statistics_frame (coverage_data d' : value) :
  update_statistics coverage_data = Ok d' ->
  exists l l' : dict,
    coverage_data = VDict l /\ d' = VDict l' /\
    (forall k : string, k <> "statistics" ->
                        dict_lookup l' k = dict_lookup l k) /\
    dict_lookup l' "scenarios" = dict_lookup l "scenarios" /\
    others "statistics" l' = others "statistics" l.
Proof.
  intros Hup.
  destruct (update_statistics_ok_dict coverage_data d' Hup) as [l Hl]. subst.
  rewrite update_statistics_dict in Hup.
  destruct (recompute (scenarios_of l)) as [st|e]; [|discriminate].
  simpl in Hup. injection Hup as <-.
  exists l, (dict_set l "statistics" st).
  split; [reflexivity|]. split; [reflexivity|]. split; [|split].
  - intros k Hk. apply dict_lookup_set_other. exact Hk.
  - apply dict_lookup_set_other. discriminate.
  - apply others_set.
Qed.

Lemma update_statistics_frame_witness :
  update_statistics ledger4 = Ok ledger4_recomputed /\
  exists l l' : dict,
    ledger4 = VDict l /\ ledger4_recomputed = VDict l' /\
    (forall k : string, k <> "statistics" ->
                        dict_lookup l' k = dict_lookup l k) /\
    dict_lookup l' "scenarios" = dict_lookup l "scenarios" /\
    others "statistics" l' = others "statistics" l.
Proof.
  split.
  - vm_compute. reflexivity.
  - apply (update_statistics_frame ledger4 ledger4_recomputed).
    vm_compute. reflexivity.
Defined.

(** The statistics block a recomputation stores. *)
Definition recomputed_block (coverage_data : value) : result value :=
  d' <- update_statistics coverage_data ;;
  py_getitem d' "statistics".

Lemma recomputed_block_dict (d : dict) :
  recomputed_block (VDict d) = recompute (scenarios_of d).
Proof.
  unfold recomputed_block. rewrite update_statistics_dict.
  destruct (recompute (scenarios_of d)) as [st|e]; [|reflexivity].
  simpl. rewrite dict_lookup_set_same. reflexivity.
Qed.

(** A ledger without scenarios and with no statistics yet, and one with an
    empty list of scenarios and a stale block. *)
Definition ledger_bare : dict := [("generated", VStr "2024")].

Definition ledger_stale : dict :=
  [ ("statistics", VDict [("total_scenarios", VInt 7); ("passed", VInt 7)]);
    ("scenarios", VList []) ].

(** C10: the statistics block a recomputation stores is a function of
    what [coverage_data.get('scenarios', [])] gives: two ledger objects
    that agree there get the same block (or raise alike), whatever
    ['statistics'] block and other keys they hold; a ledger without the
    key ['scenarios'] gets the block of one whose ['scenarios'] is the
    empty list. *)
Theorem recomputed_block_of_scenarios (d1 d2 : dict) :
  (py_get (VDict d1) "scenarios" (VList [])
   = py_get (VDict d2) "scenarios" (VList []) ->
   recomputed_block (VDict d1) = recomputed_block (VDict d2))
  /\ (dict_lookup d1 "scenarios" = None ->
      dict_lookup d2 "scenarios" = Some (VList []) ->
      recomputed_block (VDict d1) = recomputed_block (VDict d2)).
Proof.
  assert (H : py_get (VDict d1) "scenarios" (VList [])
              = py_get (VDict d2) "scenarios" (VList []) ->
              recomputed_block (VDict d1) = recomputed_block (VDict d2)).
  { intros Hs. rewrite !recomputed_block_dict.
    assert (Hget : forall d, py_get (VDict d) "scenarios" (VList [])
                             = Ok (scenarios_of d)).
    { intros d. unfold py_get, scenarios_of.
      destruct (dict_lookup d "scenarios"); reflexivity. }
    rewrite !Hget in Hs. injection Hs as Hs. rewrite Hs. reflexivity. }
  split; [exact H|].
  intros H1 H2. apply H. unfold py_get. rewrite H1, H2. reflexivity.
Qed.

Lemma recomputed_block_of_scenarios_witness :
  dict_lookup ledger_bare "scenarios" = None /\
  dict_lookup ledger_stale "scenarios" = Some (VList []) /\
  recomputed_block (VDict ledger_bare)
  = Ok (statistics_block 0 0 0 0 0 0%float) /\
  recomputed_block (VDict ledger_bare) = recomputed_block (VDict ledger_stale).
Proof.
  split; [reflexivity|]. split; [reflexivity|]. split; [vm_compute; reflexivity|].
  apply (proj2 (recomputed_block_of_scenarios ledger_bare ledger_stale));
    reflexivity.
Defined.

(** ** The run of [main] *)

Lemma for_each_counters (items : list value) :
  forall (n p f s q : Z) (stats : value),
    for_each count_scenario items (counters n p f s q) = Ok stats ->
    exists p' f' s' q', stats = counters n p' f' s' q'.
Proof.
  induction items as [|x items IH]; intros n p f s q stats H; simpl in H.
  - injection H as <-. exists p, f, s, q. reflexivity.
  - destruct (is_dict x) eqn:Hx.
    + rewrite (count_scenario_hit n p f s q x Hx), bind_ok in H.
      exact (IH _ _ _ _ _ _ H).
    + destruct x; try discriminate Hx; discriminate H.
Qed.

Lemma recompute_block (scenarios stats : value) :
  recompute scenarios = Ok stats ->
  exists n p f s q c, stats = statistics_block n p f s q c.
Proof.
  unfold recompute. intros H.
  apply bind_inv in H. destruct H as [n [_ H]].
  apply bind_inv in H. destruct H as [items [_ H]].
  apply bind_inv in H. destruct H as [st [Hst H]].
  apply bind_inv in H. destruct H as [c [_ H]].
  destruct (for_each_counters items n 0 0 0 0 st Hst) as [p [f [s [q ->]]]].
  injection H as <-. exists n, p, f, s, q, c. reflexivity.
Qed.

(** The ledger after reading, decoding and recomputing, or what one of
    the three raises. *)
Definition loaded (json_load : string -> result value) (e : env) (w : world)
  : result value :=
  match file w with
  | Some text =>
      if readable e then
        coverage_data <- json_load text ;;
        update_statistics coverage_data
      else Raise OSError
  | None => Raise OSError
  end.

Definition rewritten (text : string) (w : world) : world :=
  {| file := Some text; stdout := stdout w; stderr := stderr w |}.

Definition reported (err : exn) (w : world) : world :=
  eprint (ErrorLine "Error updating compliance: " err) w.

Definition report (stats : value) : list line :=
  match stats with
  | VDict [ (_, n); (_, p); (_, f); (_, s); (_, q); (_, c) ] =>
      [ Text "TCK Compliance Report:";
        Field "  Total Scenarios: " n;
        Field "  Passed: " p;
        Field "  Failed: " f;
        Field "  Skipped: " s;
        Field "  Pending: " q;
        Fixed2 "  Compliance: " c "%" ]
  | _ => []
  end.

Definition printed (ls : list line) (w : world) : world :=
  {| file := file w; stdout := (stdout w ++ ls)%list; stderr := stderr w |}.


(** Printing the lines of a list one after the other, up to the first
    [print] that raises. *)
Fixpoint print_all (e : env) (ls : list line) : M unit :=
  match ls with
  | [] => fun w => (w, Ok tt)
  | l :: ls' => mbind (print e l) (fun _ => print_all e ls')
  end.

Lemma mbind_ext {A B : Type} (m : M A) (k1 k2 : A -> M B) (w : world) :
  (forall a w', k1 a w' = k2 a w') -> mbind m k1 w = mbind m k2 w.
Proof.
  intros H. unfold mbind. destruct (m w) as [w' [a|err]]; [apply H | reflexivity].
Qed.

Lemma printed_nil (w : world) : printed [] w = w.
Proof. destruct w. unfold printed. simpl. rewrite app_nil_r. reflexivity. Qed.

Lemma printed_cons (l : line) (ls : list line) (w : world) :
  printed ls (printed [l] w) = printed (l :: ls) w.
Proof. unfold printed. simpl. rewrite <- app_assoc. reflexivity. Qed.

(** A standard output that never raises takes every line. *)
Lemma print_all_taken (e : env) (ls : list line) (w : world) :
  out e = Delivers \/ out e = LostAtExit ->
  print_all e ls w = (printed ls w, Ok tt).
Proof.
  intros Ho. revert w. induction ls as [|l ls IH]; intros w.
  - simpl. rewrite printed_nil. reflexivity.
  - simpl. unfold mbind.
    assert (Hp : print e l w = (printed [l] w, Ok tt)).
    { unfold print. destruct Ho as [-> | ->]; reflexivity. }
    rewrite Hp, IH, printed_cons. reflexivity.
Qed.


(** Nothing was printed: the exit of the interpreter changes nothing. *)
Lemma finalize_nothing_printed (e : env) (w0 : world) (r : world * Z) :
  stdout (fst r) = stdout w0 -> finalize e w0 r = r.
Proof.
  intros H. unfold finalize. rewrite H, Nat.ltb_irrefl.
  destruct (out e); reflexivity.
Qed.

Section MainOutcomes.

Variable json_load : string -> result value.
Variable json_dump : value -> string.
Variable e : env.
Variable w : world.

(** The block stored in a recomputed ledger. *)
Definition block_of (d' : value) : value :=
  match py_getitem d' "statistics" with
  | Ok stats => stats
  | Raise _ => VNone
  end.

(** What [main] does once the ledger is recomputed. *)
Definition persist_and_report (d' : value) : M unit :=
  mbind (open_write e) (fun _ =>
  mbind (write e (json_dump d')) (fun _ =>
  print_all e (report (block_of d')))).

Lemma loaded_block (d' : value) :
  loaded json_load e w = Ok d' ->
  exists n p f s q c, block_of d' = statistics_block n p f s q c.
Proof.
  unfold loaded.
  destruct (file w) as [text|]; [|discriminate].
  destruct (readable e); [|discriminate].
  destruct (json_load text) as [data|e1]; [|discriminate]. simpl bind.
  intros Hup.
  destruct (update_statistics_ok_dict data d' Hup) as [l ->].
  rewrite update_statistics_dict in Hup.
  destruct (recompute (scenarios_of l)) as [st|e2] eqn:Hst; [|discriminate].
  simpl in Hup. injection Hup as <-.
  destruct (recompute_block _ _ Hst) as [n [p [f [s [q [c ->]]]]]].
  exists n, p, f, s, q, c.
  unfold block_of, py_getitem. rewrite dict_lookup_set_same. reflexivity.
Qed.


Lemma main_try_loaded (d' : value) :
  loaded json_load e w = Ok d' ->
  main_try json_load json_dump e w = persist_and_report d' w.
Proof.
  intros Hl. destruct (loaded_block d' Hl) as [n [p [f [s [q [c Hb]]]]]].
  revert Hl. unfold loaded, main_try. unfold mbind at 1. unfold open_read.
  destruct (file w) as [text|]; [|discriminate].
  destruct (readable e); [|discriminate].
  unfold mbind at 1. unfold lift at 1.
  destruct (json_load text) as [data|e1]; [|discriminate]. simpl bind.
  intros Hup. unfold mbind at 1. unfold lift at 1. rewrite Hup.
  unfold persist_and_report.
  apply mbind_ext. intros _ w1. apply mbind_ext. intros _ w2.
  rewrite Hb. unfold block_of in Hb.
  unfold mbind at 1. unfold lift at 1.
  destruct (py_getitem d' "statistics") as [stats|e2]; [|discriminate Hb].
  subst stats. cbn -[print]. unfold mbind, lift.
  repeat (match goal with
          | |- context [print e ?l ?w0] =>
              destruct (print e l w0) as [? [[]|?]]; [|reflexivity]
          end).
  reflexivity.
Qed.

Lemma main_body_load_fails (err : exn) :
  loaded json_load e w = Raise err ->
  main_body json_load json_dump e w = (reported err w, 1).
Proof.
  unfold loaded, main_body, main_try, mbind, open_read, lift.
  destruct (file w) as [text|]; [|intros H; injection H as <-; reflexivity].
  destruct (readable e); [|intros H; injection H as <-; reflexivity].
  destruct (json_load text) as [data|e1]; simpl;
    [|intros H; injection H as <-; reflexivity].
  destruct (update_statistics data) as [d'|e2]; [discriminate|].
  intros H; injection H as <-; reflexivity.
Qed.

Lemma main_load_fails (err : exn) :
  loaded json_load e w = Raise err ->
  main json_load json_dump e w = (reported err w, 1).
Proof.
  intros Hl. unfold main. rewrite (main_body_load_fails err Hl).
  apply finalize_nothing_printed. reflexivity.
Qed.

Lemma main_open_fails (d' : value) :
  loaded json_load e w = Ok d' ->
  writable e = false ->
  main json_load json_dump e w = (reported OSError w, 1).
Proof.
  intros Hl Hw. unfold main, main_body. rewrite (main_try_loaded d' Hl).
  unfold persist_and_report, mbind, open_write. rewrite Hw.
  apply finalize_nothing_printed. reflexivity.
Qed.

Lemma main_write_fails (d' : value) (n : nat) :
  loaded json_load e w = Ok d' ->
  writable e = true ->
  room e = Some n ->
  (n < String.length (json_dump d'))%nat ->
  main json_load json_dump e w
  = (reported OSError (rewritten (substring 0 n (json_dump d')) w), 1).
Proof.
  intros Hl Hw Hr Hn. unfold main, main_body. rewrite (main_try_loaded d' Hl).
  unfold persist_and_report, mbind, open_write, write. rewrite Hw, Hr.
  apply Nat.ltb_lt in Hn. rewrite Hn.
  apply finalize_nothing_printed. reflexivity.
Qed.

(** The [try] block once the new text is written in full. *)
Lemma main_try_written (d' : value) :
  loaded json_load e w = Ok d' ->
  writable e = true ->
  (forall n, room e = Some n -> (String.length (json_dump d') <= n)%nat) ->
  main_try json_load json_dump e w
  = print_all e (report (block_of d')) (rewritten (json_dump d') w).
Proof.
  intros Hl Hw Hr. rewrite (main_try_loaded d' Hl).
  unfold persist_and_report, mbind, open_write, write. rewrite Hw.
  destruct (room e) as [n|]; [|reflexivity].
  specialize (Hr n eq_refl). apply Nat.ltb_ge in Hr. rewrite Hr.
  reflexivity.
Qed.

Lemma main_succeeds (d' : value) :
  loaded json_load e w = Ok d' ->
  writable e = true ->
  (forall n, room e = Some n -> (String.length (json_dump d') <= n)%nat) ->
  out e = Delivers ->
  main json_load json_dump e w
  = (printed (report (block_of d')) (rewritten (json_dump d') w), 0).
Proof.
  intros Hl Hw Hr Ho. unfold main, main_body.
  rewrite (main_try_written d' Hl Hw Hr).
  rewrite print_all_taken by (left; exact Ho).
  unfold finalize. rewrite Ho. reflexivity.
Qed.



End MainOutcomes.

(** *** An example run *)

Definition quoted (s : string) : string :=
  String "034"%char (s ++ String "034"%char "").

(** [coverage.json] holds the empty object. *)
Definition world_empty_object : world :=
  {| file := Some "{}"; stdout := []; stderr := [] |}.

(** No ledger file. *)
Definition world_no_file : world :=
  {| file := None; stdout := []; stderr := [] |}.

(** What [json.load] gives on the text of [world_empty_object]. *)
Definition load_empty_object (text : string) : result value :=
  if String.eqb text "{}" then Ok (VDict []) else Raise JSONDecodeError.

(** What [json.dump(coverage_data, f, indent=2)] writes for the empty
    object once recomputed. *)
Definition dump_empty_ledger (coverage_data : value) : string :=
  lines [ "{";
          "  " ++ quoted "statistics" ++ ": {";
          "    " ++ quoted "total_scenarios" ++ ": 0,";
          "    " ++ quoted "passed" ++ ": 0,";
          "    " ++ quoted "failed" ++ ": 0,";
          "    " ++ quoted "skipped" ++ ": 0,";
          "    " ++ quoted "pending" ++ ": 0,";
          "    " ++ quoted "compliance_percentage" ++ ": 0.0";
          "  }";
          "}" ].

(** The device takes twelve characters and fails. *)
Definition env_full : env :=
  {| readable := true; writable := true; room := Some 12%nat;
     out := Delivers |}.

Definition env_fine : env :=
  {| readable := true; writable := true; room := None; out := Delivers |}.

(** C9 as the claim has it: a run that exits with a non-zero status has
    left the ledger file as it was. *)
Definition failure_leaves_file (json_load : string -> result value)
           (json_dump : value -> string) (e : env) (w : world) : Prop :=
  snd (main json_load json_dump e w) <> 0 ->
  file (fst (main json_load json_dump e w)) = file w.

(** C9, counterexample: the ledger file holds [{}] and the device fails
    after twelve characters of the new text.  The run exits with status 1
    and the file holds those twelve characters. *)
Lemma main_partial_write :
  main load_empty_object dump_empty_ledger env_full world_empty_object
  = (reported OSError
       (rewritten (lines ["{"; "  " ++ String "034"%char "statist"])
                  world_empty_object), 1)
  /\ ~ failure_leaves_file load_empty_object dump_empty_ledger env_full
                           world_empty_object.
Proof.
  split; [vm_compute; reflexivity|].
  unfold failure_leaves_file. vm_compute. intros H.
  assert (Hne : 1 <> 0) by discriminate.
  specialize (H Hne). discriminate H.
Qed.

(** C9, amended: when the ledger cannot be read or decoded, when the
    recomputation raises, or when the file cannot be opened for writing,
    [main] reports the failure on the error stream, exits with status 1 and
    leaves the ledger file as it was.  When the device fails while the new
    text is written, [main] reports and exits with status 1 too, and the
    file, rewritten in place, holds the part of the new text written so
    far.  This is so whatever standard output does with what is printed
    to it. *)
Theorem main_failure_modes
        (json_load : string -> result value) (json_dump : value -> string)
        (e : env) (w : world) :
  (forall err,
      loaded json_load e w = Raise err ->
      main json_load json_dump e w = (reported err w, 1))
  /\ (forall d',
        loaded json_load e w = Ok d' ->
        writable e = false ->
        main json_load json_dump e w = (reported OSError w, 1))
  /\ (forall d' n,
        loaded json_load e w = Ok d' ->
        writable e = true ->
        room e = Some n ->
        (n < String.length (json_dump d'))%nat ->
        main json_load json_dump e w
        = (reported OSError (rewritten (substring 0 n (json_dump d')) w), 1)).
Proof.
  split; [intros err; apply main_load_fails|].
  split; [intros d'; apply main_open_fails|].
  intros d' n; apply main_write_fails.
Qed.

Lemma main_failure_modes_witness :
  loaded load_empty_object env_fine world_no_file = Raise OSError /\
  main load_empty_object dump_empty_ledger env_fine world_no_file
  = (reported OSError world_no_file, 1).
Proof.
  split.
  - reflexivity.
  - apply (proj1 (main_failure_modes load_empty_object dump_empty_ledger
                                     env_fine world_no_file)).
    reflexivity.
Defined.

End UpdateComplianceSpec.

(* ================================================================== *)
(** * Properties of the scenario extraction *)

Module ParseTckSpec.
Import ParseTck.

(** ** Strings *)

Fixpoint map_string (f : ascii -> ascii) (s : string) : string :=
  match s with
  | EmptyString => EmptyString
  | String c s' => String (f c) (map_string f s')
  end.

(** Whether [c] occurs in [s]. *)
Fixpoint has_char (c : ascii) (s : string) : bool :=
  match s with
  | EmptyString => false
  | String a s' => Ascii.eqb a c || has_char c s'
  end.

(** A path with every ['/'] read as ['-']. *)
Definition dashed (s : string) : string :=
  map_string (fun c => if Ascii.eqb c "/" then "-"%char else c) s.

Lemma append_nil_r (s : string) : s ++ "" = s.
Proof. induction s as [|c s IH]; simpl; [reflexivity | rewrite IH; reflexivity]. Qed.

Lemma append_assoc (a b c : string) : (a ++ b) ++ c = a ++ b ++ c.
Proof. induction a as [|x a IH]; simpl; [reflexivity | rewrite IH; reflexivity]. Qed.

Lemma split_not_nil (sep : ascii) (s : string) : split sep s <> [].
Proof.
  destruct s as [|c s]; simpl; [discriminate|].
  destruct (Ascii.eqb c sep); [discriminate|].
  destruct (split sep s); discriminate.
Qed.

Lemma join_cons_cons (sep part part' : string) (parts : list string) :
  join sep (part :: part' :: parts) = part ++ sep ++ join sep (part' :: parts).
Proof. reflexivity. Qed.

Lemma join_String (sep : string) (c : ascii) (part : string)
      (parts : list string) :
  join sep (String c part :: parts) = String c (join sep (part :: parts)).
Proof. destruct parts; reflexivity. Qed.

(** Splitting on ['/'] and joining with ['-'] rewrites each ['/'] to
    ['-'] and nothing else. *)
Lemma join_split_dashed (s : string) : join "-" (split "/" s) = dashed s.
Proof.
  induction s as [|c s IH]; [reflexivity|].
  simpl split. unfold dashed in *. simpl map_string.
  destruct (Ascii.eqb c "/") eqn:Ec.
  - destruct (split "/" s) as [|part parts] eqn:Es.
    + exfalso. exact (split_not_nil _ _ Es).
    + rewrite join_cons_cons, IH. reflexivity.
  - destruct (split "/" s) as [|part parts] eqn:Es.
    + exfalso. exact (split_not_nil _ _ Es).
    + rewrite join_String, IH. reflexivity.
Qed.

Lemma map_string_app (f : ascii -> ascii) (a b : string) :
  map_string f (a ++ b) = map_string f a ++ map_string f b.
Proof. induction a as [|c a IH]; simpl; [reflexivity | rewrite IH; reflexivity]. Qed.

Lemma dashed_no_dash_inj (a b : string) :
  has_char "-" a = false -> has_char "-" b = false ->
  dashed a = dashed b -> a = b.
Proof.
  revert b. induction a as [|x a IH]; intros [|y b] Ha Hb H;
    try reflexivity; try discriminate.
  simpl in Ha, Hb. apply orb_false_elim in Ha. destruct Ha as [Hx Ha].
  apply orb_false_elim in Hb. destruct Hb as [Hy Hb].
  unfold dashed in H. simpl in H. injection H as Hc Hrest.
  rewrite (IH b Ha Hb Hrest). f_equal.
  destruct (Ascii.eqb_spec x "/") as [Ex|Ex];
    destruct (Ascii.eqb_spec y "/") as [Ey|Ey]; subst; try reflexivity.
  - rewrite Ascii.eqb_refl in Hy. discriminate.
  - rewrite Ascii.eqb_refl in Hx. discriminate.
Qed.

Lemma length_append (a b : string) :
  String.length (a ++ b) = String.length a + String.length b.
Proof. induction a as [|x a IH]; simpl; [reflexivity | rewrite IH; reflexivity]. Qed.

Lemma append_inj_l (a b c : string) : a ++ c = b ++ c -> a = b.
Proof.
  revert b. induction a as [|x a IH]; intros [|y b] H.
  - reflexivity.
  - exfalso. apply (f_equal String.length) in H. simpl in H.
    rewrite length_append in H. lia.
  - exfalso. apply (f_equal String.length) in H. simpl in H.
    rewrite length_append in H. lia.
  - simpl in H. injection H as Hx Hrest. subst y.
    rewrite (IH b Hrest). reflexivity.
Qed.

(** The last ['-'] of a string marks one cut only. *)
Lemma append_dash_inj (a b x y : string) :
  has_char "-" x = false -> has_char "-" y = false ->
  a ++ "-" ++ x = b ++ "-" ++ y -> a = b /\ x = y.
Proof.
  intros Hx Hy. revert b. induction a as [|c a IH]; intros [|d b] H.
  - simpl in H. injection H as H. split; [reflexivity | exact H].
  - exfalso. simpl in H. injection H as Hc H. subst x.
    clear -Hx. induction b as [|e b IHb]; simpl in Hx.
    + discriminate.
    + apply orb_false_elim in Hx. apply IHb. apply Hx.
  - exfalso. simpl in H. injection H as Hc H. subst y.
    clear -Hy. induction a as [|e a IHa]; simpl in Hy.
    + discriminate.
    + apply orb_false_elim in Hy. apply IHa. apply Hy.
  - simpl in H. injection H as Hc H. subst d.
    destruct (IH b H) as [Hab Hxy]. subst. split; reflexivity.
Qed.

(** ** Removing the extension *)

(** The path holds ['.feature'] once, as its last characters. *)
Fixpoint extension_only (p : string) : bool :=
  match p with
  | EmptyString => false
  | String _ p' =>
      if startswith p ".feature" then String.eqb p ".feature"
      else extension_only p'
  end.

Lemma replace_unfold (old new : string) (c : ascii) (s : string) :
  replace old new (String c s)
  = if startswith (String c s) old
    then new ++ replace_from old new s (String.length old - 1)
    else String c (replace old new s).
Proof. reflexivity. Qed.

(** On such a path [replace('.feature', '')] takes the extension off. *)
Lemma replace_extension_only (p : string) :
  extension_only p = true -> replace ".feature" "" p ++ ".feature" = p.
Proof.
  induction p as [|c p IH]; [discriminate|].
  intros H. rewrite replace_unfold.
  change (extension_only (String c p))
    with (if startswith (String c p) ".feature"
          then String.eqb (String c p) ".feature"
          else extension_only p) in H.
  destruct (startswith (String c p) ".feature").
  - apply String.eqb_eq in H. injection H as Hc Hp. subst c p. reflexivity.
  - simpl. rewrite (IH H). reflexivity.
Qed.

Lemma dashed_replace_extension_only (p : string) :
  extension_only p = true ->
  dashed (replace ".feature" "" p) ++ ".feature" = dashed p.
Proof.
  intros H. rewrite <- (replace_extension_only p H) at 2.
  unfold dashed. rewrite map_string_app. reflexivity.
Qed.

(** ** The occurrence index *)

Lemma has_dash_string_of_uint (d : Decimal.uint) :
  has_char "-" (NilEmpty.string_of_uint d) = false.
Proof. induction d; simpl; try reflexivity; exact IHd. Qed.

Lemma format_02d_no_dash (n : nat) : has_char "-" (format_02d n) = false.
Proof.
  unfold format_02d.
  destruct (Nat.ltb _ 2); simpl; apply has_dash_string_of_uint.
Qed.

(** Reading the digits back. *)
Definition read_index (s : string) : option nat :=
  option_map Nat.of_uint (NilEmpty.uint_of_string s).

Lemma read_index_format_02d (n : nat) : read_index (format_02d n) = Some n.
Proof.
  unfold format_02d, read_index.
  destruct (Nat.ltb _ 2).
  - change (NilEmpty.uint_of_string ("0" ++ ?s))
      with (option_map Decimal.D0 (NilEmpty.uint_of_string s)).
    rewrite NilEmpty.usu. simpl option_map.
    change (Nat.of_uint (Decimal.D0 ?d)) with (Nat.of_uint d).
    rewrite Unsigned.of_to. reflexivity.
  - rewrite NilEmpty.usu. simpl. rewrite Unsigned.of_to. reflexivity.
Qed.

Lemma format_02d_inj (n m : nat) : format_02d n = format_02d m -> n = m.
Proof.
  intros H. apply (f_equal read_index) in H.
  rewrite !read_index_format_02d in H. congruence.
Qed.

(** ** Identifiers *)

Lemma scenario_id_of_dashed (relative_path : string) (i : nat) :
  scenario_id_of relative_path i
  = dashed (replace ".feature" "" relative_path) ++ "-" ++ format_02d (i + 1).
Proof. unfold scenario_id_of. rewrite join_split_dashed. reflexivity. Qed.

Lemma scenario_id_of_eq (p1 p2 : string) (i1 i2 : nat) :
  extension_only p1 = true -> extension_only p2 = true ->
  (scenario_id_of p1 i1 = scenario_id_of p2 i2
   <-> dashed p1 = dashed p2 /\ i1 = i2).
Proof.
  intros H1 H2. rewrite !scenario_id_of_dashed. split.
  - intros H.
    apply append_dash_inj in H; try apply format_02d_no_dash.
    destruct H as [Hp Hi]. apply format_02d_inj in Hi. split; [|lia].
    rewrite <- (dashed_replace_extension_only p1 H1).
    rewrite <- (dashed_replace_extension_only p2 H2).
    rewrite Hp. reflexivity.
  - intros [Hp Hi]. subst i2. f_equal.
    rewrite <- (dashed_replace_extension_only p1 H1) in Hp.
    rewrite <- (dashed_replace_extension_only p2 H2) in Hp.
    apply append_inj_l in Hp. exact Hp.
Qed.

(** ** The loop of [parse_feature_file] *)

(** The feature name [parse_feature_file] gives the scenarios of a text. *)
Definition feature_of (content : string) : string :=
  match re_search RE_MULTILINE feature_pattern content with
  | Some feature_match => strip (group 1 feature_match)
  | None => "Unknown"
  end.

(** The records of the matches [ms], the first of them numbered [i]. *)
Fixpoint records (rel content : string) (i : nat)
         (ms : list (list (nat * string))) : list scenario :=
  match ms with
  | [] => []
  | m :: ms' =>
      {| scenario_id := scenario_id_of rel i;
         scenario_name := strip (group 2 m);
         scenario_type := group 1 m;
         feature_name := feature_of content;
         file_path := rel;
         language_area := determine_language_area rel;
         requires_runtime := check_requires_runtime content (group 2 m) |}
      :: records rel content (S i) ms'
  end.

Lemma for_enumerate_records (cwd path content rel : string) :
  relpath cwd path tck_features_dir = Ok rel ->
  forall ms i,
    for_enumerate (scenario_info cwd path content (feature_of content)) i ms
    = Ok (records rel content i ms).
Proof.
  intros Hrel. induction ms as [|m ms IH]; intros i; [reflexivity|].
  simpl. unfold scenario_info at 1. rewrite Hrel. simpl.
  rewrite IH. reflexivity.
Qed.

Lemma parse_feature_file_records
      (read : string -> result string) (cwd path content rel : string) :
  read path = Ok content ->
  relpath cwd path tck_features_dir = Ok rel ->
  parse_feature_file read cwd path
  = Ok (records rel content 0 (re_findall RE_MULTILINE scenario_pattern content)).
Proof.
  intros Hread Hrel. unfold parse_feature_file. rewrite Hread. simpl.
  apply (for_enumerate_records cwd path content rel Hrel).
Qed.

Lemma records_ids (rel content : string) (ms : list (list (nat * string))) :
  forall i,
    map scenario_id (records rel content i ms)
    = map (scenario_id_of rel) (seq i (List.length ms)).
Proof.
  induction ms as [|m ms IH]; intros i; [reflexivity|].
  simpl. rewrite IH. reflexivity.
Qed.

Lemma for_enumerate_Forall {A B : Type} (P : B -> Prop)
      (body : nat -> A -> result B) :
  (forall i x y, body i x = Ok y -> P y) ->
  forall xs i ys, for_enumerate body i xs = Ok ys -> Forall P ys.
Proof.
  intros Hbody. induction xs as [|x xs IH]; intros i ys H; simpl in H.
  - injection H as <-. constructor.
  - destruct (body i x) as [y|e] eqn:Hy; [|discriminate]. simpl in H.
    destruct (for_enumerate body (S i) xs) as [ys'|e] eqn:Hys; [|discriminate].
    simpl in H. injection H as <-. constructor.
    + exact (Hbody i x y Hy).
    + exact (IH (S i) ys' Hys).
Qed.

(** ** Example documents *)

(** The files of an example corpus. *)
Fixpoint read_of (files : list (string * string)) (p : string)
  : result string :=
  match files with
  | [] => Raise OSError
  | (q, text) :: files' => if String.eqb q p then Ok text else read_of files' p
  end.

(** A document with a result assertion and with a parse failure. *)
Definition doc_mixed : string :=
  lines [ "Feature: Mixed";
          "";
          "  Scenario: Returning a literal";
          "    Given any graph";
          "    When executing query:";
          "    Then the result should be, in any order:";
          "";
          "  Scenario: Rejecting a literal";
          "    Given any graph";
          "    Then the query should fail to parse" ].

Definition path_mixed : string :=
  "openCypher-master/tck/features/expressions/literals/Mixed.feature".

Definition scenarios_mixed : list scenario :=
  [ {| scenario_id := "expressions-literals-Mixed-01";
       scenario_name := "Returning a literal";
       scenario_type := "Scenario";
       feature_name := "Mixed";
       file_path := "expressions/literals/Mixed.feature";
       language_area := "expressions.literals";
       requires_runtime := false |};
    {| scenario_id := "expressions-literals-Mixed-02";
       scenario_name := "Rejecting a literal";
       scenario_type := "Scenario";
       feature_name := "Mixed";
       file_path := "expressions/literals/Mixed.feature";
       language_area := "expressions.literals";
       requires_runtime := false |} ].

(** ** Claims *)

(** C1: when the text of a document matches one of the parse/validate-only
    indicators, [check_requires_runtime] answers [False] for that text,
    whatever runtime indicators it also matches, and every scenario
    [parse_feature_file] extracts from the document has
    [requires_runtime = False]. *)
Theorem parse_validate_precedence
        (read : string -> result string) (cwd path content : string)
        (scenarios : list scenario) :
  existsb (fun indicator => found indicator content) parse_validate_indicators
  = true ->
  read path = Ok content ->
  parse_feature_file read cwd path = Ok scenarios ->
  (forall name, check_requires_runtime content name = false) /\
  Forall (fun s => requires_runtime s = false) scenarios.
Proof.
  intros Hpv Hread Hparse.
  assert (Hcheck : forall name, check_requires_runtime content name = false).
  { intros name. unfold check_requires_runtime. rewrite Hpv. reflexivity. }
  split; [exact Hcheck|].
  unfold parse_feature_file in Hparse. rewrite Hread in Hparse. simpl in Hparse.
  revert Hparse. apply for_enumerate_Forall.
  intros i m s Hs. unfold scenario_info in Hs.
  destruct (relpath cwd path tck_features_dir) as [rel|e]; [|discriminate].
  simpl in Hs. injection Hs as <-. simpl. apply Hcheck.
Qed.

Lemma parse_validate_precedence_witness :
  existsb (fun indicator => found indicator doc_mixed) runtime_indicators = true /\
  (forall name, check_requires_runtime doc_mixed name = false) /\
  Forall (fun s => requires_runtime s = false) scenarios_mixed.
Proof.
  split; [vm_compute; reflexivity|].
  apply (parse_validate_precedence
           (read_of [(path_mixed, doc_mixed)]) "/home/tck" path_mixed
           doc_mixed scenarios_mixed).
  - vm_compute. reflexivity.
  - vm_compute. reflexivity.
  - vm_compute. reflexivity.
Defined.

(** ** Language areas *)

Lemma split_no_slash (s : string) :
  has_char "/" s = false -> split "/" s = [s].
Proof.
  induction s as [|c s IH]; intros H; [reflexivity|].
  simpl in H. apply orb_false_elim in H. destruct H as [Hc Hs].
  simpl. rewrite Hc, (IH Hs). reflexivity.
Qed.

Lemma split_app_slash (a b : string) :
  has_char "/" a = false -> split "/" (a ++ "/" ++ b) = a :: split "/" b.
Proof.
  induction a as [|c a IH]; intros H; [reflexivity|].
  simpl in H. apply orb_false_elim in H. destruct H as [Hc Ha].
  simpl. rewrite Hc. simpl in IH. rewrite (IH Ha). reflexivity.
Qed.

Definition no_slash (segment : string) : bool := negb (has_char "/" segment).

(** Splitting a path gives back the segments it was joined from. *)
Lemma split_join_slash (segments : list string) :
  segments <> [] ->
  forallb no_slash segments = true ->
  split "/" (join "/" segments) = segments.
Proof.
  induction segments as [|a segments IH]; intros Hne H; [congruence|].
  simpl in H. apply andb_prop in H. destruct H as [Ha H].
  apply negb_true_iff in Ha.
  destruct segments as [|b segments].
  - simpl. apply split_no_slash. exact Ha.
  - rewrite join_cons_cons, (split_app_slash _ _ Ha), IH;
      [reflexivity | discriminate | exact H].
Qed.

(** The language area in the words of the specification: the first
    segment alone when fewer than two segments come before the leaf, the
    first two joined by a dot otherwise. *)
Definition spec_language_area (path : string) : string :=
  let segments := split "/" path in
  if Nat.ltb (List.length segments - 1) 2 then nth 0 segments ""
  else nth 0 segments "" ++ "." ++ nth 1 segments "".

(** C7, counterexample: a feature file directly under the corpus root has
    the area ["unknown"], not its first segment. *)
Lemma language_area_of_root_file :
  determine_language_area "arithmetic.feature" = "unknown" /\
  spec_language_area "arithmetic.feature" = "arithmetic.feature" /\
  determine_language_area "arithmetic.feature"
  <> spec_language_area "arithmetic.feature".
Proof.
  split; [reflexivity|]. split; [reflexivity|]. vm_compute. discriminate.
Qed.

(** C7, amended: for the path made of the directory segments [dirs] and
    the leaf [leaf], the language area is ["unknown"] when no segment
    comes before the leaf, the first segment when one does, and the first
    two segments joined by a dot when two or more do. *)
Theorem language_area_by_depth (dirs : list string) (leaf : string) :
  forallb no_slash (dirs ++ [leaf]) = true ->
  determine_language_area (join "/" (dirs ++ [leaf]))
  = match dirs with
    | [] => "unknown"
    | [main_area] => main_area
    | main_area :: sub_area :: _ => main_area ++ "." ++ sub_area
    end.
Proof.
  intros H. unfold determine_language_area.
  rewrite split_join_slash; [|destruct dirs; discriminate | exact H].
  destruct dirs as [|a [|b dirs]]; try reflexivity.
  simpl List.length. rewrite length_app. simpl List.length.
  replace (Nat.leb 2 _) with true by (symmetry; apply Nat.leb_le; lia).
  replace (Nat.leb 3 _) with true by (symmetry; apply Nat.leb_le; lia).
  reflexivity.
Qed.

Lemma language_area_by_depth_witness :
  determine_language_area "expressions/arithmetic.feature" = "expressions".
Proof.
  apply (language_area_by_depth ["expressions"] "arithmetic.feature").
  reflexivity.
Defined.

(** ** The walk *)

(** The scenarios the walk takes from one file. *)
Definition file_scenarios (read : string -> result string) (cwd path : string)
  : list scenario :=
  match parse_feature_file read cwd path with
  | Ok scenarios => scenarios
  | Raise _ => []
  end.

(** The feature files of a walk, in the order they are met. *)
Definition feature_files (walk : list (string * list string)) : list string :=
  flat_map
    (fun root_files =>
       map (os_path_join (fst root_files))
           (filter (fun file => endswith file ".feature") (snd root_files)))
    walk.

Lemma all_scenarios_files (read : string -> result string) (cwd : string)
      (walk : list (string * list string)) :
  all_scenarios read cwd walk
  = flat_map (file_scenarios read cwd) (feature_files walk).
Proof.
  unfold all_scenarios, feature_files.
  induction walk as [|[root files] walk IH]; [reflexivity|].
  simpl. rewrite IH, flat_map_app. f_equal.
  induction files as [|file files IHf]; [reflexivity|].
  simpl. destruct (endswith file ".feature"); simpl; rewrite IHf; reflexivity.
Qed.

Lemma all_scenarios_app (read : string -> result string) (cwd : string)
      (walk walk' : list (string * list string)) :
  all_scenarios read cwd (walk ++ walk')
  = (all_scenarios read cwd walk ++ all_scenarios read cwd walk')%list.
Proof. unfold all_scenarios. apply flat_map_app. Qed.

(** [relpath] over the files of a walk. *)
Fixpoint relative_paths (cwd : string) (paths : list string)
  : result (list string) :=
  match paths with
  | [] => Ok []
  | p :: paths' =>
      rel <- relpath cwd p tck_features_dir ;;
      rels <- relative_paths cwd paths' ;;
      Ok (rel :: rels)
  end.

Lemma file_scenarios_ids (read : string -> result string)
      (cwd path rel : string) :
  relpath cwd path tck_features_dir = Ok rel ->
  exists n : nat,
    map scenario_id (file_scenarios read cwd path)
    = map (scenario_id_of rel) (seq 0 n).
Proof.
  intros Hrel. unfold file_scenarios.
  destruct (read path) as [content|e] eqn:Hread.
  - rewrite (parse_feature_file_records read cwd path content rel Hread Hrel).
    eexists. apply records_ids.
  - unfold parse_feature_file. rewrite Hread. exists 0. reflexivity.
Qed.

Lemma scenario_id_of_index (rel : string) (i j : nat) :
  scenario_id_of rel i = scenario_id_of rel j -> i = j.
Proof.
  rewrite !scenario_id_of_dashed. intros H.
  apply append_dash_inj in H; try apply format_02d_no_dash.
  destruct H as [_ H]. apply format_02d_inj in H. lia.
Qed.

(** Whether the strings of a list are pairwise different. *)
Fixpoint distinct (l : list string) : bool :=
  match l with
  | [] => true
  | x :: l' => negb (existsb (String.eqb x) l') && distinct l'
  end.

Lemma distinct_NoDup (l : list string) : distinct l = true -> NoDup l.
Proof.
  induction l as [|x l IH]; intros H; [constructor|].
  simpl in H. apply andb_prop in H. destruct H as [Hx Hl].
  constructor; [|exact (IH Hl)].
  intros Hin. apply negb_true_iff in Hx.
  assert (Hex : existsb (String.eqb x) l = true).
  { apply existsb_exists. exists x. split; [exact Hin | apply String.eqb_refl]. }
  congruence.
Qed.

Lemma files_ids_distinct (read : string -> result string) (cwd : string)
      (paths : list string) :
  forall rels : list string,
    relative_paths cwd paths = Ok rels ->
    forallb extension_only rels = true ->
    NoDup (map dashed rels) ->
    NoDup (map scenario_id (flat_map (file_scenarios read cwd) paths)) /\
    (forall id,
        In id (map scenario_id (flat_map (file_scenarios read cwd) paths)) ->
        exists rel i, In rel rels /\ id = scenario_id_of rel i).
Proof.
  induction paths as [|p paths IH]; intros rels Hrels Hext Hnd.
  - simpl. split; [constructor | intros id []].
  - simpl in Hrels.
    destruct (relpath cwd p tck_features_dir) as [rel|e] eqn:Hrel;
      [|discriminate].
    simpl in Hrels.
    destruct (relative_paths cwd paths) as [rels'|e] eqn:Hrels'; [|discriminate].
    simpl in Hrels. injection Hrels as <-.
    simpl in Hext. apply andb_prop in Hext. destruct Hext as [Hext1 Hext'].
    simpl in Hnd. inversion Hnd as [|x l Hnotin Hnd']. subst.
    destruct (IH rels' eq_refl Hext' Hnd') as [IHnd IHin].
    destruct (file_scenarios_ids read cwd p rel Hrel) as [n Hids].
    simpl flat_map. rewrite map_app, Hids.
    assert (Hown : forall id,
               In id (map (scenario_id_of rel) (seq 0 n)) ->
               exists i, id = scenario_id_of rel i).
    { intros id Hin. apply in_map_iff in Hin. destruct Hin as [i [<- _]].
      exists i. reflexivity. }
    split.
    + apply NoDup_app.
      * apply NoDup_map_NoDup_ForallPairs; [|apply seq_NoDup].
        intros i j _ _. apply scenario_id_of_index.
      * exact IHnd.
      * intros id Hin1 Hin2.
        destruct (Hown id Hin1) as [i ->].
        destruct (IHin _ Hin2) as [rel' [j [Hrel' Heq]]].
        assert (Hext2 : extension_only rel' = true).
        { rewrite forallb_forall in Hext'. apply Hext'. exact Hrel'. }
        apply (scenario_id_of_eq rel rel' i j Hext1 Hext2) in Heq.
        destruct Heq as [Hd _]. apply Hnotin. rewrite Hd.
        apply in_map. exact Hrel'.
    + intros id Hin. apply in_app_or in Hin. destruct Hin as [Hin|Hin].
      * destruct (Hown id Hin) as [i ->]. exists rel, i.
        split; [left; reflexivity | reflexivity].
      * destruct (IHin id Hin) as [rel' [j [Hrel' ->]]]. exists rel', j.
        split; [right; exact Hrel' | reflexivity].
Qed.

(** ** Example corpus *)

Definition doc_arithmetic : string :=
  lines [ "Feature: Addition";
          "";
          "  Scenario: Adding two integers";
          "    Given any graph";
          "    When executing query:";
          "    Then the result should be, in any order:";
          "";
          "  Scenario: Adding two floats";
          "    Given any graph";
          "    When executing query:";
          "    Then the result should be, in any order:" ].

Definition doc_match_where : string :=
  lines [ "Feature: MatchWhere1";
          "";
          "  Scenario Outline: Filter on <property>";
          "    Given an empty graph" ].

Definition path_arithmetic : string :=
  "openCypher-master/tck/features/expressions/arithmetic.feature".

Definition path_match_where : string :=
  "openCypher-master/tck/features/clauses/match-where/MatchWhere1.feature".

Definition scenarios_arithmetic : list scenario :=
  [ {| scenario_id := "expressions-arithmetic-01";
       scenario_name := "Adding two integers";
       scenario_type := "Scenario";
       feature_name := "Addition";
       file_path := "expressions/arithmetic.feature";
       language_area := "expressions";
       requires_runtime := true |};
    {| scenario_id := "expressions-arithmetic-02";
       scenario_name := "Adding two floats";
       scenario_type := "Scenario";
       feature_name := "Addition";
       file_path := "expressions/arithmetic.feature";
       language_area := "expressions";
       requires_runtime := true |} ].

Definition corpus : string -> result string :=
  read_of [ (path_match_where, doc_match_where);
            (path_arithmetic, doc_arithmetic) ].

Definition corpus_walk : list (string * list string) :=
  [ ("openCypher-master/tck/features", []);
    ("openCypher-master/tck/features/clauses", []);
    ("openCypher-master/tck/features/clauses/match-where",
     ["MatchWhere1.feature"; "README.md"]);
    ("openCypher-master/tck/features/expressions", ["arithmetic.feature"]) ].

(** Two documents whose paths differ in one ['-'] against one ['/']. *)
Definition corpus_clash : string -> result string :=
  read_of
    [ ("openCypher-master/tck/features/clauses/with-where/With1.feature",
       doc_match_where);
      ("openCypher-master/tck/features/clauses/with/where/With1.feature",
       doc_match_where) ].

Definition walk_clash : list (string * list string) :=
  [ ("openCypher-master/tck/features/clauses/with-where", ["With1.feature"]);
    ("openCypher-master/tck/features/clauses/with/where", ["With1.feature"]) ].

(** ** Identifier claims *)

(** C2 as the claim has it: different pairs of a path and an occurrence
    index get different identifiers. *)
Definition ids_never_collide : Prop :=
  forall (p1 p2 : string) (i1 i2 : nat),
    (p1, i1) <> (p2, i2) -> scenario_id_of p1 i1 <> scenario_id_of p2 i2.

(** C2, counterexample: the first scenarios of
    [clauses/with-where/With1.feature] and of
    [clauses/with/where/With1.feature] both get
    [clauses-with-where-With1-01], and a corpus holding the two documents
    has that identifier twice in its manifest. *)
Lemma scenario_id_collision :
  scenario_id_of "clauses/with-where/With1.feature" 0
  = "clauses-with-where-With1-01" /\
  scenario_id_of "clauses/with/where/With1.feature" 0
  = "clauses-with-where-With1-01" /\
  map scenario_id (all_scenarios corpus_clash "/home/tck" walk_clash)
  = ["clauses-with-where-With1-01"; "clauses-with-where-With1-01"] /\
  ~ ids_never_collide.
Proof.
  split; [vm_compute; reflexivity|]. split; [vm_compute; reflexivity|].
  split; [vm_compute; reflexivity|].
  intros H.
  apply (H "clauses/with-where/With1.feature"
           "clauses/with/where/With1.feature" 0 0).
  - discriminate.
  - vm_compute. reflexivity.
Qed.

(** C2, amended: for relative paths that hold ['.feature'] as their
    extension only, two pairs of a path and an occurrence index get the
    same identifier exactly when the indices are equal and the paths are
    equal once every ['/'] is read as ['-']; so different pairs get
    different identifiers when the paths hold no ['-'], and the
    identifiers of a manifest are pairwise different when the relative
    paths of the feature files walked are pairwise different once every
    ['/'] is read as ['-'].  The identifiers are a function of the
    relative path and the index alone. *)
Theorem scenario_ids_unique :
  (forall (p1 p2 : string) (i1 i2 : nat),
      extension_only p1 = true -> extension_only p2 = true ->
      (scenario_id_of p1 i1 = scenario_id_of p2 i2
       <-> dashed p1 = dashed p2 /\ i1 = i2))
  /\ (forall (p1 p2 : string) (i1 i2 : nat),
        extension_only p1 = true -> extension_only p2 = true ->
        has_char "-" p1 = false -> has_char "-" p2 = false ->
        (p1, i1) <> (p2, i2) ->
        scenario_id_of p1 i1 <> scenario_id_of p2 i2)
  /\ (forall (read : string -> result string) (cwd : string)
             (walk : list (string * list string)) (rels : list string),
        relative_paths cwd (feature_files walk) = Ok rels ->
        forallb extension_only rels = true ->
        distinct (map dashed rels) = true ->
        NoDup (map scenario_id (all_scenarios read cwd walk))).
Proof.
  split; [exact scenario_id_of_eq|]. split.
  - intros p1 p2 i1 i2 H1 H2 Hd1 Hd2 Hne Heq.
    apply (scenario_id_of_eq p1 p2 i1 i2 H1 H2) in Heq.
    destruct Heq as [Hp Hi]. apply Hne.
    rewrite (dashed_no_dash_inj p1 p2 Hd1 Hd2 Hp), Hi. reflexivity.
  - intros read cwd walk rels Hrels Hext Hd.
    rewrite all_scenarios_files.
    apply (files_ids_distinct read cwd (feature_files walk) rels Hrels Hext).
    apply distinct_NoDup. exact Hd.
Qed.

Lemma scenario_ids_unique_witness :
  map scenario_id (all_scenarios corpus "/home/tck" corpus_walk)
  = [ "clauses-match-where-MatchWhere1-01";
      "expressions-arithmetic-01";
      "expressions-arithmetic-02" ] /\
  NoDup (map scenario_id (all_scenarios corpus "/home/tck" corpus_walk)).
Proof.
  split; [vm_compute; reflexivity|].
  apply (proj2 (proj2 scenario_ids_unique) corpus "/home/tck" corpus_walk
               [ "clauses/match-where/MatchWhere1.feature";
                 "expressions/arithmetic.feature" ]).
  - vm_compute. reflexivity.
  - vm_compute. reflexivity.
  - vm_compute. reflexivity.
Defined.

(** The identifier in the words of the specification: the extension is
    taken off the relative path, the path is split into its segments, the
    segments are joined with ['-'] and the two-digit index, counted from
    one, is appended. *)
Definition strip_extension (p : string) : string :=
  if endswith p ".feature"
  then substring 0 (String.length p - String.length ".feature") p
  else p.

Definition spec_scenario_id (relative_path : string) (index : nat) : string :=
  join "-" (split "/" (strip_extension relative_path))
  ++ "-" ++ format_02d index.

Lemma endswith_unfold (s p : string) :
  endswith s p
  = String.eqb s p
    || match s with
       | EmptyString => false
       | String _ s' => endswith s' p
       end.
Proof. destruct s; reflexivity. Qed.

Lemma endswith_app (r x : string) : endswith (r ++ x) x = true.
Proof.
  induction r as [|c r IH].
  - rewrite endswith_unfold. simpl append. rewrite String.eqb_refl. reflexivity.
  - change (endswith (String c r ++ x) x)
      with (String.eqb (String c (r ++ x)) x || endswith (r ++ x) x).
    rewrite IH. apply orb_true_r.
Qed.

Lemma substring_app (r x : string) :
  substring 0 (String.length r) (r ++ x) = r.
Proof.
  induction r as [|c r IH]; simpl.
  - destruct x; reflexivity.
  - rewrite IH. reflexivity.
Qed.

Lemma strip_extension_app (r : string) : strip_extension (r ++ ".feature") = r.
Proof.
  unfold strip_extension.
  rewrite endswith_app, length_append, Nat.add_sub. apply substring_app.
Qed.

Lemma strip_extension_replace (p : string) :
  extension_only p = true -> strip_extension p = replace ".feature" "" p.
Proof.
  intros H. rewrite <- (replace_extension_only p H) at 1.
  apply strip_extension_app.
Qed.

(** A feature file in a directory whose name holds ['.feature']. *)
Definition path_inner : string :=
  "openCypher-master/tck/features/v1.features/a.feature".

(** C6: on a relative path that holds ['.feature'] as its extension only,
    the identifier is the one the specification derives, as for the two
    scenarios of [expressions/arithmetic.feature], and the scenarios of a
    file are the same whatever was walked before it.  On
    [v1.features/a.feature] the code gives [v1s-a-01] where the
    specification derives [v1.features-a-01]: [replace] takes every
    ['.feature'] out of the path, not the extension alone. *)
Theorem scenario_id_derivation :
  (forall (rel : string) (i : nat),
      extension_only rel = true ->
      scenario_id_of rel i = spec_scenario_id rel (i + 1))
  /\ parse_feature_file corpus "/home/tck" path_arithmetic
     = Ok scenarios_arithmetic
  /\ (forall (read : string -> result string) (cwd : string)
             (walked : list (string * list string)) (root file : string),
        endswith file ".feature" = true ->
        all_scenarios read cwd (walked ++ [(root, [file])])
        = (all_scenarios read cwd walked
           ++ file_scenarios read cwd (os_path_join root file))%list)
  /\ map scenario_id
         (file_scenarios (read_of [(path_inner, doc_match_where)])
                         "/home/tck" path_inner)
     = ["v1s-a-01"]
  /\ spec_scenario_id "v1.features/a.feature" 1 = "v1.features-a-01".
Proof.
  split.
  - intros rel i H. unfold scenario_id_of, spec_scenario_id.
    rewrite (strip_extension_replace rel H). reflexivity.
  - split; [vm_compute; reflexivity|]. split.
    + intros read cwd walked root file Hf. rewrite all_scenarios_app.
      f_equal. unfold all_scenarios, file_scenarios. simpl.
      rewrite Hf, !app_nil_r. reflexivity.
    + split; vm_compute; reflexivity.
Qed.

Lemma scenario_id_derivation_witness :
  extension_only "expressions/arithmetic.feature" = true /\
  scenario_id_of "expressions/arithmetic.feature" 0
  = spec_scenario_id "expressions/arithmetic.feature" 1.
Proof.
  split; [reflexivity|].
  apply (proj1 scenario_id_derivation "expressions/arithmetic.feature" 0).
  reflexivity.
Defined.

End ParseTckSpec.

(* ================================================================== *)
(** * Further properties of the statistics recomputation *)

Module UpdateComplianceMore.
Import UpdateCompliance UpdateComplianceSpec.

Local Open Scope Z_scope.

(** ** The guard of [calculate_compliance] *)

(** What [stats.get('total_scenarios', 0)] gives on a block. *)
Definition total_of (block : dict) : value :=
  match dict_lookup block "total_scenarios" with
  | Some v => v
  | None => VInt 0
  end.

(** The blocks of the examples: no total, a zero total beside a [passed]
    that is no number. *)
Definition block_no_total : dict := [("passed", VInt 3)].

Definition block_zero_total : dict :=
  [("passed", VStr "three"); ("total_scenarios", VFloat 0%float)].

(** X1: [calculate_compliance] returns 0.0 on an object without a
    ['statistics'] block, and on a block whose ['total_scenarios'] is
    missing or equal to zero, whatever ['passed'] holds there: the guard
    comes before the division. *)
Theorem calculate_compliance_guard :
  (forall d : dict,
      dict_lookup d "statistics" = None ->
      calculate_compliance (VDict d) = Ok 0%float)
  /\ (forall d block : dict,
        dict_lookup d "statistics" = Some (VDict block) ->
        py_eq_zero (total_of block) = true ->
        calculate_compliance (VDict d) = Ok 0%float).
Proof.
  split.
  - intros d H. unfold calculate_compliance, py_get. rewrite H. reflexivity.
  - intros d block H Hz. unfold calculate_compliance.
    unfold py_get at 1. rewrite H, bind_ok.
    unfold total_of in Hz. unfold py_get.
    destruct (dict_lookup block "total_scenarios") as [t|];
      destruct (dict_lookup block "passed") as [p|];
      rewrite !bind_ok; try rewrite Hz; reflexivity.
Qed.

Lemma calculate_compliance_guard_witness :
  calculate_compliance (VDict [("statistics", VDict block_no_total)])
  = Ok 0%float /\
  calculate_compliance (VDict [("statistics", VDict block_zero_total)])
  = Ok 0%float.
Proof.
  split.
  - apply (proj2 calculate_compliance_guard
                 [("statistics", VDict block_no_total)] block_no_total);
      reflexivity.
  - apply (proj2 calculate_compliance_guard
                 [("statistics", VDict block_zero_total)] block_zero_total);
      reflexivity.
Defined.

(** ** [calculate_compliance] after [update_statistics] *)

Lemma calculate_compliance_of_block (d1 d2 b1 b2 : dict) :
  dict_lookup d1 "statistics" = Some (VDict b1) ->
  dict_lookup d2 "statistics" = Some (VDict b2) ->
  dict_lookup b1 "total_scenarios" = dict_lookup b2 "total_scenarios" ->
  dict_lookup b1 "passed" = dict_lookup b2 "passed" ->
  calculate_compliance (VDict d1) = calculate_compliance (VDict d2).
Proof.
  intros H1 H2 Ht Hp. unfold calculate_compliance.
  unfold py_get at 1 4. rewrite H1, H2, !bind_ok.
  unfold py_get. rewrite Ht, Hp. reflexivity.
Qed.

Lemma recompute_percentage (scenarios stats : value) :
  recompute scenarios = Ok stats ->
  exists n p f s q c,
    stats = statistics_block n p f s q c /\
    calculate_compliance (VDict [("statistics", counters n p f s q)]) = Ok c.
Proof.
  unfold recompute. intros H.
  apply bind_inv in H. destruct H as [n [_ H]].
  apply bind_inv in H. destruct H as [items [_ H]].
  apply bind_inv in H. destruct H as [st [Hst H]].
  apply bind_inv in H. destruct H as [c [Hc H]].
  destruct (for_each_counters items n 0 0 0 0 st Hst) as [p [f [s [q ->]]]].
  injection H as <-. exists n, p, f, s, q, c. split; [reflexivity | exact Hc].
Qed.

(** X2: on the ledger [update_statistics] leaves, [calculate_compliance]
    returns the ['compliance_percentage'] stored in its block. *)
Theorem calculate_compliance_of_updated (coverage_data d' : value) :
  update_statistics coverage_data = Ok d' ->
  exists (block : value) (c : float),
    py_getitem d' "statistics" = Ok block /\
    py_getitem block "compliance_percentage" = Ok (VFloat c) /\
    calculate_compliance d' = Ok c.
Proof.
  intros Hup.
  destruct (update_statistics_ok_dict coverage_data d' Hup) as [l ->].
  rewrite update_statistics_dict in Hup.
  destruct (recompute (scenarios_of l)) as [st|e] eqn:Hst; [|discriminate].
  simpl in Hup. injection Hup as <-.
  destruct (recompute_percentage _ _ Hst) as [n [p [f [s [q [c [-> Hc]]]]]]].
  exists (statistics_block n p f s q c), c.
  split; [unfold py_getitem; rewrite dict_lookup_set_same; reflexivity|].
  split; [reflexivity|].
  rewrite <- Hc.
  apply (calculate_compliance_of_block _ _
           [ ("total_scenarios", VInt n); ("passed", VInt p);
             ("failed", VInt f); ("skipped", VInt s); ("pending", VInt q);
             ("compliance_percentage", VFloat c) ]
           [ ("total_scenarios", VInt n); ("passed", VInt p);
             ("failed", VInt f); ("skipped", VInt s); ("pending", VInt q) ]).
  - apply dict_lookup_set_same.
  - reflexivity.
  - reflexivity.
  - reflexivity.
Qed.

Lemma calculate_compliance_of_updated_witness :
  update_statistics ledger4 = Ok ledger4_recomputed /\
  exists (block : value) (c : float),
    py_getitem ledger4_recomputed "statistics" = Ok block /\
    py_getitem block "compliance_percentage" = Ok (VFloat c) /\
    calculate_compliance ledger4_recomputed = Ok c.
Proof.
  split.
  - vm_compute. reflexivity.
  - apply (calculate_compliance_of_updated ledger4 ledger4_recomputed).
    vm_compute. reflexivity.
Defined.

(** ** What makes [update_statistics] raise *)

(** The values of ['scenarios'] the function gets through: a list of
    objects, and the empty dict and the empty str, which have a length
    and nothing to visit. *)
Definition accepted (scenarios : value) : bool :=
  match scenarios with
  | VList es => forallb is_dict es
  | VDict [] => true
  | VStr EmptyString => true
  | _ => false
  end.

Lemma for_each_not_dict (items : list value) :
  forallb is_dict items = false ->
  forall n p f s q,
    for_each count_scenario items (counters n p f s q) = Raise AttributeError.
Proof.
  induction items as [|x items IH]; intros H n p f s q; [discriminate|].
  simpl in H. simpl for_each. destruct (is_dict x) eqn:Hx.
  - rewrite (count_scenario_hit n p f s q x Hx), bind_ok.
    apply IH. exact H.
  - destruct x; try discriminate Hx; reflexivity.
Qed.

Lemma recompute_not_dict (scenarios : value) (n : Z) (items : list value) :
  py_len scenarios = Ok n ->
  py_iter scenarios = Ok items ->
  forallb is_dict items = false ->
  recompute scenarios = Raise AttributeError.
Proof.
  intros Hn Hi Hf. unfold recompute. rewrite Hn, Hi, !bind_ok.
  rewrite (for_each_not_dict items Hf). reflexivity.
Qed.

(** A ledger whose second entry is a string, and one whose ['scenarios']
    is null. *)
Definition ledger_bad_entry : dict :=
  [("scenarios", VList [entry "expressions-boolean-01" "pass"; VStr "fail"])].

Definition ledger_null : dict := [("scenarios", VNone)].

(** X3: [update_statistics] raises [AttributeError] on a ledger that is
    no object.  On an object it returns exactly when ['scenarios'] is
    missing, a list of objects, the empty dict or the empty str; it
    raises [TypeError] when ['scenarios'] is null, a bool or a number,
    and [AttributeError] when an entry of the list is no object or when
    ['scenarios'] is a dict or a str that is not empty. *)
Theorem update_statistics_raises :
  (forall coverage_data : value,
      is_dict coverage_data = false ->
      update_statistics coverage_data = Raise AttributeError)
  /\ (forall d : dict,
        accepted (scenarios_of d) = true ->
        update_statistics (VDict d)
        = Ok (VDict (dict_set d "statistics"
                       (statistics_of (entries (VDict d))))))
  /\ (forall d : dict,
        accepted (scenarios_of d) = false ->
        update_statistics (VDict d)
        = Raise match scenarios_of d with
                | VNone | VBool _ | VInt _ | VFloat _ => TypeError
                | _ => AttributeError
                end).
Proof.
  split; [|split].
  - intros v Hv. destruct v; try reflexivity. discriminate Hv.
  - intros d H. rewrite update_statistics_dict. unfold entries.
    destruct (scenarios_of d) as [| | | |s|es|sd]; try discriminate H.
    + destruct s; [reflexivity | discriminate H].
    + simpl in H. rewrite (recompute_entries es H). reflexivity.
    + destruct sd; [reflexivity | discriminate H].
  - intros d H. rewrite update_statistics_dict.
    destruct (scenarios_of d) as [| | | |s|es|sd]; try reflexivity.
    + destruct s as [|c s]; [discriminate H|].
      rewrite (recompute_not_dict (VStr (String c s)) _ _ eq_refl eq_refl);
        reflexivity.
    + simpl in H.
      rewrite (recompute_not_dict (VList es) _ _ eq_refl eq_refl H).
      reflexivity.
    + destruct sd as [|[k v] sd]; [discriminate H|].
      rewrite (recompute_not_dict (VDict ((k, v) :: sd)) _ _ eq_refl eq_refl);
        reflexivity.
Qed.

Lemma update_statistics_raises_witness :
  update_statistics (VDict ledger_bad_entry) = Raise AttributeError /\
  update_statistics (VDict ledger_null) = Raise TypeError.
Proof.
  split.
  - apply (proj2 (proj2 update_statistics_raises) ledger_bad_entry).
    reflexivity.
  - apply (proj2 (proj2 update_statistics_raises) ledger_null).
    reflexivity.
Defined.

(** ** The order of the keys *)

Definition keys (d : dict) : list string := map fst d.

Definition has_key (d : dict) (k : string) : bool :=
  existsb (String.eqb k) (keys d).

Lemma keys_dict_set (d : dict) (k : string) (v : value) :
  keys (dict_set d k v)
  = if has_key d k then keys d else (keys d ++ [k])%list.
Proof.
  unfold has_key, keys. induction d as [|[k0 v0] d IH]; [reflexivity|].
  simpl. rewrite (String.eqb_sym k k0).
  destruct (String.eqb k0 k) eqn:E; simpl.
  - reflexivity.
  - rewrite IH. destruct (existsb (String.eqb k) (map fst d)); reflexivity.
Qed.

(** X4: the ledger [update_statistics] leaves has the keys of the ledger
    it was given, in the same order: ['statistics'] stays where it was,
    and comes last when the ledger had none. *)
Theorem update_statistics_keys (d d' : dict) :
  update_statistics (VDict d) = Ok (VDict d') ->
  keys d' = if has_key d "statistics" then keys d
            else (keys d ++ ["statistics"])%list.
Proof.
  intros Hup. rewrite update_statistics_dict in Hup.
  destruct (recompute (scenarios_of d)) as [st|e]; [|discriminate].
  simpl in Hup. injection Hup as <-. apply keys_dict_set.
Qed.

Lemma update_statistics_keys_witness :
  exists d' : dict,
    update_statistics (VDict ledger_bare) = Ok (VDict d') /\
    keys d' = ["generated"; "statistics"].
Proof.
  exists [ ("generated", VStr "2024");
           ("statistics", statistics_block 0 0 0 0 0 0%float) ].
  split.
  - vm_compute. reflexivity.
  - apply (update_statistics_keys ledger_bare). vm_compute. reflexivity.
Defined.

(** ** The order of the entries *)

Lemma tally_permutation (c : counter) (es es' : list value) :
  Permutation es es' -> tally c es = tally c es'.
Proof.
  intros H. induction H as [|x l l' _ IH|x y l|l l' l'' _ IH1 _ IH2].
  - reflexivity.
  - rewrite !tally_cons, IH. reflexivity.
  - rewrite !tally_cons. lia.
  - rewrite IH1. exact IH2.
Qed.

Definition ledger_pf : dict :=
  [("scenarios", VList [entry "a-01" "pass"; entry "a-02" "fail"])].

Definition ledger_fp : dict :=
  [("scenarios", VList [entry "a-02" "fail"; entry "a-01" "pass"]);
   ("statistics", VNone)].

(** X5: the statistics block does not depend on the order of the
    entries: two ledgers whose entries are the same up to their order get
    the same block. *)
Theorem recomputed_block_permutation (d1 d2 : dict) :
  wf_ledger (VDict d1) = true ->
  wf_ledger (VDict d2) = true ->
  Permutation (entries (VDict d1)) (entries (VDict d2)) ->
  recomputed_block (VDict d1) = recomputed_block (VDict d2)
  /\ recomputed_block (VDict d1) = Ok (statistics_of (entries (VDict d1))).
Proof.
  intros H1 H2 Hp.
  assert (Hblock : forall d, wf_ledger (VDict d) = true ->
                             recomputed_block (VDict d)
                             = Ok (statistics_of (entries (VDict d)))).
  { intros d Hd. rewrite recomputed_block_dict.
    unfold wf_ledger in Hd. unfold entries.
    destruct (scenarios_of d) as [| | | | |es|]; try discriminate Hd.
    apply recompute_entries. exact Hd. }
  split; [|apply Hblock; exact H1].
  rewrite (Hblock d1 H1), (Hblock d2 H2). unfold statistics_of.
  rewrite (Permutation_length Hp).
  rewrite !(tally_permutation _ _ _ Hp). reflexivity.
Qed.

Lemma recomputed_block_permutation_witness :
  recomputed_block (VDict ledger_pf) = recomputed_block (VDict ledger_fp)
  /\ recomputed_block (VDict ledger_pf)
     = Ok (statistics_of (entries (VDict ledger_pf))).
Proof.
  apply (recomputed_block_permutation ledger_pf ledger_fp).
  - reflexivity.
  - reflexivity.
  - apply perm_swap.
Defined.

(** ** Running [main] again *)

Lemma update_statistics_again (coverage_data d' : value) :
  update_statistics coverage_data = Ok d' -> update_statistics d' = Ok d'.
Proof.
  intros Hup.
  destruct (update_statistics_ok_dict coverage_data d' Hup) as [l ->].
  rewrite update_statistics_dict in Hup.
  destruct (recompute (scenarios_of l)) as [st|e] eqn:Hst; [|discriminate].
  simpl in Hup. injection Hup as <-.
  rewrite update_statistics_dict, scenarios_of_set, Hst. simpl.
  rewrite dict_set_set. reflexivity.
Qed.

Lemma loaded_ok (json_load : string -> result value) (e : env) (w : world)
      (d' : value) :
  loaded json_load e w = Ok d' ->
  readable e = true /\
  exists text data,
    file w = Some text /\ json_load text = Ok data /\
    update_statistics data = Ok d'.
Proof.
  unfold loaded. destruct (file w) as [text|]; [|discriminate].
  destruct (readable e); [|discriminate].
  destruct (json_load text) as [data|err] eqn:Hl; [|discriminate].
  simpl. intros H. split; [reflexivity|]. exists text, data.
  repeat split; assumption.
Qed.

(** The recomputed empty ledger, and a decoder that also reads its text
    back. *)
Definition empty_recomputed : value :=
  VDict [("statistics", statistics_block 0 0 0 0 0 0%float)].

Definition load_both (text : string) : result value :=
  if String.eqb text "{}" then Ok (VDict [])
  else if String.eqb text (dump_empty_ledger empty_recomputed)
       then Ok empty_recomputed
       else Raise JSONDecodeError.

(** X6: after a run of [main] that exits with status 0, a second run in
    the same surroundings exits with status 0 as well, leaves in the file
    the text the first run wrote and prints the same report, provided
    standard output delivers what is printed to it and the decoder reads
    the text of the first run back as the ledger it was written from. *)
Theorem main_twice
        (json_load : string -> result value) (json_dump : value -> string)
        (e : env) (w : world) (d' : value) :
  loaded json_load e w = Ok d' ->
  writable e = true ->
  (forall n, room e = Some n -> (String.length (json_dump d') <= n)%nat) ->
  out e = Delivers ->
  json_load (json_dump d') = Ok d' ->
  main json_load json_dump e w
  = (printed (report (block_of d')) (rewritten (json_dump d') w), 0)
  /\ main json_load json_dump e (fst (main json_load json_dump e w))
     = (printed (report (block_of d'))
          (fst (main json_load json_dump e w)), 0).
Proof.
  intros Hl Hw Hr Ho Hrt.
  rewrite (main_succeeds json_load json_dump e w d' Hl Hw Hr Ho).
  split; [reflexivity|]. simpl fst.
  destruct (loaded_ok json_load e w d' Hl) as [Hre [text [data [_ [_ Hup]]]]].
  assert (Hl' : loaded json_load e
                  (printed (report (block_of d')) (rewritten (json_dump d') w))
                = Ok d').
  { unfold loaded. simpl file. rewrite Hre, Hrt. simpl.
    exact (update_statistics_again data d' Hup). }
  rewrite (main_succeeds json_load json_dump e _ d' Hl' Hw Hr Ho).
  reflexivity.
Qed.

Lemma main_twice_witness :
  main load_both dump_empty_ledger env_fine world_empty_object
  = (printed (report (block_of empty_recomputed))
       (rewritten (dump_empty_ledger empty_recomputed) world_empty_object), 0)
  /\ main load_both dump_empty_ledger env_fine
          (fst (main load_both dump_empty_ledger env_fine world_empty_object))
     = (printed (report (block_of empty_recomputed))
          (fst (main load_both dump_empty_ledger env_fine world_empty_object)),
        0).
Proof.
  apply (main_twice load_both dump_empty_ledger env_fine world_empty_object
                    empty_recomputed).
  - vm_compute. reflexivity.
  - reflexivity.
  - intros n H. discriminate H.
  - reflexivity.
  - vm_compute. reflexivity.
Defined.

(** ** The report cannot be printed *)





End UpdateComplianceMore.

(* ================================================================== *)
(** * Further properties of the scenario extraction *)

Module ParseTckMore.
Import ParseTck ParseTckSpec.

(** ** The records of one document *)

Lemma for_enumerate_raise (cwd path content feature : string) (e : exn) :
  relpath cwd path tck_features_dir = Raise e ->
  forall ms i scenarios,
    for_enumerate (scenario_info cwd path content feature) i ms = Ok scenarios ->
    scenarios = [].
Proof.
  intros Hrel [|m ms] i scenarios H; simpl in H.
  - injection H as <-. reflexivity.
  - unfold scenario_info at 1 in H. rewrite Hrel in H. discriminate H.
Qed.

Lemma records_shared (rel content : string) (ms : list (list (nat * string))) :
  forall i s,
    In s (records rel content i ms) ->
    requires_runtime s = check_requires_runtime content "" /\
    language_area s = determine_language_area rel /\
    feature_name s = feature_of content /\
    file_path s = rel.
Proof.
  induction ms as [|m ms IH]; intros i s H; [destruct H|].
  simpl in H. destruct H as [<-|H].
  - simpl. repeat split; reflexivity.
  - exact (IH (S i) s H).
Qed.

(** X7: the scenarios [parse_feature_file] returns for a document have
    pairwise different identifiers, whatever the path of the document,
    and share one classification: the same [requires_runtime], the same
    [language_area], the same [feature_name] and the same [file_path]. *)
Theorem parse_feature_file_uniform
        (read : string -> result string) (cwd path : string)
        (scenarios : list scenario) :
  parse_feature_file read cwd path = Ok scenarios ->
  NoDup (map scenario_id scenarios) /\
  (forall s1 s2,
      In s1 scenarios -> In s2 scenarios ->
      requires_runtime s1 = requires_runtime s2 /\
      language_area s1 = language_area s2 /\
      feature_name s1 = feature_name s2 /\
      file_path s1 = file_path s2).
Proof.
  intros H. unfold parse_feature_file in H.
  destruct (read path) as [content|e] eqn:Hread; [|discriminate H].
  simpl in H. fold (feature_of content) in H.
  destruct (relpath cwd path tck_features_dir) as [rel|e] eqn:Hrel.
  - rewrite (for_enumerate_records cwd path content rel Hrel) in H.
    injection H as <-. split.
    + rewrite records_ids.
      apply NoDup_map_NoDup_ForallPairs; [|apply seq_NoDup].
      intros i j _ _. apply scenario_id_of_index.
    + intros s1 s2 H1 H2.
      destruct (records_shared _ _ _ _ _ H1) as [A1 [B1 [C1 D1]]].
      destruct (records_shared _ _ _ _ _ H2) as [A2 [B2 [C2 D2]]].
      repeat split; congruence.
  - rewrite (for_enumerate_raise cwd path content _ e Hrel _ _ _ H).
    split; [constructor | intros s1 s2 []].
Qed.

Lemma parse_feature_file_uniform_witness :
  NoDup (map scenario_id scenarios_mixed) /\
  (forall s1 s2,
      In s1 scenarios_mixed -> In s2 scenarios_mixed ->
      requires_runtime s1 = requires_runtime s2 /\
      language_area s1 = language_area s2 /\
      feature_name s1 = feature_name s2 /\
      file_path s1 = file_path s2).
Proof.
  apply (parse_feature_file_uniform
           (read_of [(path_mixed, doc_mixed)]) "/home/tck" path_mixed).
  vm_compute. reflexivity.
Defined.

(** ** Files the walk passes over *)





(** ** Names *)

Definition head_ok (s : string) : bool :=
  match s with
  | EmptyString => true
  | String c _ => negb (is_space c)
  end.

Fixpoint last_ok (s : string) : bool :=
  match s with
  | EmptyString => true
  | String c EmptyString => negb (is_space c)
  | String _ s' => last_ok s'
  end.

Lemma lstrip_head (s : string) : head_ok (lstrip s) = true.
Proof.
  induction s as [|c s IH]; [reflexivity|]. simpl.
  destruct (is_space c) eqn:E; [exact IH | simpl; rewrite E; reflexivity].
Qed.

Lemma rstrip_unfold (c : ascii) (s : string) :
  rstrip (String c s)
  = match rstrip s with
    | EmptyString => if is_space c then EmptyString else String c EmptyString
    | r => String c r
    end.
Proof. reflexivity. Qed.

Lemma rstrip_last (s : string) : last_ok (rstrip s) = true.
Proof.
  induction s as [|c s IH]; [reflexivity|]. rewrite rstrip_unfold.
  destruct (rstrip s) as [|d r].
  - destruct (is_space c) eqn:E; simpl; [reflexivity | rewrite E; reflexivity].
  - exact IH.
Qed.

Lemma rstrip_head (s : string) : head_ok s = true -> head_ok (rstrip s) = true.
Proof.
  destruct s as [|c s]; [reflexivity|]. intros H. simpl in H.
  rewrite rstrip_unfold. apply negb_true_iff in H.
  destruct (rstrip s); [rewrite H|]; simpl; rewrite H; reflexivity.
Qed.

Lemma lstrip_fixed (s : string) : head_ok s = true -> lstrip s = s.
Proof.
  destruct s as [|c s]; [reflexivity|]. simpl. intros H.
  apply negb_true_iff in H. rewrite H. reflexivity.
Qed.

Lemma rstrip_fixed (s : string) : last_ok s = true -> rstrip s = s.
Proof.
  induction s as [|c s IH]; [reflexivity|]. intros H. rewrite rstrip_unfold.
  destruct s as [|d s].
  - simpl in H. apply negb_true_iff in H. simpl. rewrite H. reflexivity.
  - rewrite (IH H). reflexivity.
Qed.

Lemma strip_strip (s : string) : strip (strip s) = strip s.
Proof.
  unfold strip.
  rewrite (lstrip_fixed _ (rstrip_head _ (lstrip_head s))).
  apply rstrip_fixed. apply rstrip_last.
Qed.

(** X9: the names in the records are trimmed: neither the scenario name
    nor the feature name of a scenario [parse_feature_file] returns
    starts or ends with white space. *)
Theorem parse_feature_file_trimmed
        (read : string -> result string) (cwd path : string)
        (scenarios : list scenario) :
  parse_feature_file read cwd path = Ok scenarios ->
  Forall (fun s =>
            head_ok (scenario_name s) = true /\
            last_ok (scenario_name s) = true /\
            head_ok (feature_name s) = true /\
            last_ok (feature_name s) = true /\
            strip (scenario_name s) = scenario_name s /\
            strip (feature_name s) = feature_name s) scenarios.
Proof.
  intros H. unfold parse_feature_file in H.
  destruct (read path) as [content|e]; [|discriminate H]. simpl in H.
  revert H. apply for_enumerate_Forall.
  intros i m s Hs. unfold scenario_info in Hs.
  destruct (relpath cwd path tck_features_dir); [|discriminate Hs].
  simpl in Hs. injection Hs as <-. simpl.
  assert (Hstrip : forall x, head_ok (strip x) = true /\
                             last_ok (strip x) = true).
  { intros x. unfold strip. split;
      [apply rstrip_head; apply lstrip_head | apply rstrip_last]. }
  split; [apply Hstrip|]. split; [apply Hstrip|].
  destruct (re_search RE_MULTILINE feature_pattern content) as [fm|].
  - split; [apply Hstrip|]. split; [apply Hstrip|].
    split; apply strip_strip.
  - split; [reflexivity|]. split; [reflexivity|].
    split; [apply strip_strip | reflexivity].
Qed.

Lemma parse_feature_file_trimmed_witness :
  Forall (fun s =>
            head_ok (scenario_name s) = true /\
            last_ok (scenario_name s) = true /\
            head_ok (feature_name s) = true /\
            last_ok (feature_name s) = true /\
            strip (scenario_name s) = scenario_name s /\
            strip (feature_name s) = feature_name s) scenarios_mixed.
Proof.
  apply (parse_feature_file_trimmed
           (read_of [(path_mixed, doc_mixed)]) "/home/tck" path_mixed).
  vm_compute. reflexivity.
Defined.

End ParseTckMore.

(* ================================================================== *)
(** * The matcher and the classification *)

Module ClassifierSpec.
Import ParseTck ParseTckSpec.

(** ** The matcher, one repetition at a time *)

(** The rounds of a greedy repetition of [m], as [matches] runs them. *)
Fixpoint rounds (m : cursor -> (cursor -> option cursor) -> option cursor)
         (k : cursor -> option cursor) (fuel : nat) (c : cursor)
  : option cursor :=
  match fuel with
  | O => k c
  | S fuel' =>
      match m c (fun c' => if advanced c c' then rounds m k fuel' c' else None)
      with
      | Some c' => Some c'
      | None => k c
      end
  end.

Definition extensional
           (m : cursor -> (cursor -> option cursor) -> option cursor) : Prop :=
  forall (c : cursor) (k1 k2 : cursor -> option cursor),
    (forall d, k1 d = k2 d) -> m c k1 = m c k2.

Lemma rounds_ext (m : cursor -> (cursor -> option cursor) -> option cursor)
      (k1 k2 : cursor -> option cursor) :
  extensional m -> (forall d, k1 d = k2 d) ->
  forall fuel c, rounds m k1 fuel c = rounds m k2 fuel c.
Proof.
  intros Hm Hk. induction fuel as [|fuel IH]; intros c; simpl.
  - apply Hk.
  - rewrite (Hm c _ (fun c' => if advanced c c' then rounds m k2 fuel c'
                               else None)).
    + rewrite Hk. reflexivity.
    + intros d. destruct (advanced c d); [apply IH | reflexivity].
Qed.

Lemma matches_Star_rounds (fl : flags) (r : regex) :
  extensional (matches fl r) ->
  forall (k : cursor -> option cursor) (c : cursor),
    matches fl (Star r) c k
    = rounds (matches fl r) k (String.length (rest c)) c.
Proof.
  intros Hr k c. simpl. generalize (String.length (rest c)) as fuel.
  intros fuel. revert c. induction fuel as [|fuel IH]; intros c.
  - reflexivity.
  - simpl rounds.
    rewrite (Hr c _ (fun c' => if advanced c c'
                               then rounds (matches fl r) k fuel c'
                               else None)).
    + reflexivity.
    + intros d. destruct (advanced c d); [apply IH | reflexivity].
Qed.

Lemma matches_Plus_rounds (fl : flags) (r : regex) :
  extensional (matches fl r) ->
  forall (k : cursor -> option cursor) (c : cursor),
    matches fl (Plus r) c k
    = matches fl r c
        (fun c' => rounds (matches fl r) k (String.length (rest c')) c').
Proof.
  intros Hr k c. simpl. apply Hr. intros d.
  exact (matches_Star_rounds fl r Hr k d).
Qed.

Lemma matches_ext (fl : flags) (r : regex) : extensional (matches fl r).
Proof.
  induction r as [| a | | | | | | | r1 IH1 r2 IH2 | r1 IH1 r2 IH2
                 | r1 IH1 | r1 IH1 | i r1 IH1];
    intros c k1 k2 Hk;
    try (simpl;
         first [ apply Hk
               | destruct (step _ c); [apply Hk | reflexivity]
               | destruct (at_bol fl c); [apply Hk | reflexivity]
               | destruct (at_eol fl c); [apply Hk | reflexivity]
               | destruct (xorb _ _); [apply Hk | reflexivity] ]; fail).
  - simpl. apply IH1. intros d. apply IH2. exact Hk.
  - simpl. rewrite (IH1 c k1 k2 Hk), (IH2 c k1 k2 Hk). reflexivity.
  - rewrite !(matches_Star_rounds fl r1 IH1). apply rounds_ext; assumption.
  - rewrite !(matches_Plus_rounds fl r1 IH1). apply IH1. intros d.
    apply rounds_ext; assumption.
  - simpl. apply IH1. intros d. apply Hk.
Qed.

Lemma matches_Star (fl : flags) (r : regex) (c : cursor)
      (k : cursor -> option cursor) :
  matches fl (Star r) c k
  = rounds (matches fl r) k (String.length (rest c)) c.
Proof. apply matches_Star_rounds. apply matches_ext. Qed.

Lemma matches_Plus (fl : flags) (r : regex) (c : cursor)
      (k : cursor -> option cursor) :
  matches fl (Plus r) c k
  = matches fl r c
      (fun c' => rounds (matches fl r) k (String.length (rest c')) c').
Proof. apply matches_Plus_rounds. apply matches_ext. Qed.

(** ** Letter case *)

Definition lowercase (s : string) : string := map_string lower s.

Definition is_some {A : Type} (o : option A) : bool :=
  match o with
  | Some _ => true
  | None => false
  end.

(** Two positions that differ in the case of letters only. *)
Definition alike (c1 c2 : cursor) : Prop :=
  option_map lower (before c1) = option_map lower (before c2) /\
  lowercase (rest c1) = lowercase (rest c2).

Lemma is_word_lower (x : ascii) : is_word (lower x) = is_word x.
Proof. destruct x as [[] [] [] [] [] [] [] []]; reflexivity. Qed.

Lemma is_space_lower (x : ascii) : is_space (lower x) = is_space x.
Proof. destruct x as [[] [] [] [] [] [] [] []]; reflexivity. Qed.

Lemma is_lf_lower (x : ascii) : Ascii.eqb (lower x) lf = Ascii.eqb x lf.
Proof. destruct x as [[] [] [] [] [] [] [] []]; reflexivity. Qed.

Definition case_blind (p : ascii -> bool) : Prop :=
  forall a b, lower a = lower b -> p a = p b.

Lemma case_blind_lower (p : ascii -> bool) :
  (forall x, p (lower x) = p x) -> case_blind p.
Proof. intros H a b Hab. rewrite <- (H a), <- (H b), Hab. reflexivity. Qed.

Lemma lowercase_length (s t : string) :
  lowercase s = lowercase t -> String.length s = String.length t.
Proof.
  revert t. induction s as [|a s IH]; intros [|b t] H; try discriminate.
  - reflexivity.
  - simpl in H. injection H as _ H. simpl. rewrite (IH t H). reflexivity.
Qed.

Lemma alike_advanced (c1 c2 d1 d2 : cursor) :
  alike c1 c2 -> alike d1 d2 -> advanced c1 d1 = advanced c2 d2.
Proof.
  intros [_ Hc] [_ Hd]. unfold advanced.
  rewrite (lowercase_length _ _ Hc), (lowercase_length _ _ Hd). reflexivity.
Qed.

Lemma alike_step (p : ascii -> bool) (c1 c2 : cursor) :
  case_blind p -> alike c1 c2 ->
  match step p c1, step p c2 with
  | Some d1, Some d2 => alike d1 d2
  | None, None => True
  | _, _ => False
  end.
Proof.
  intros Hp [Hb Hr]. unfold step.
  destruct (rest c1) as [|a s]; destruct (rest c2) as [|b t];
    try discriminate Hr; [exact I|].
  simpl in Hr. injection Hr as Hab Hst. rewrite (Hp a b Hab).
  destruct (p b); [|exact I].
  split; simpl; [rewrite Hab; reflexivity | exact Hst].
Qed.

Lemma alike_capture (i : nat) (c1 c2 d1 d2 : cursor) :
  alike d1 d2 -> alike (capture i c1 d1) (capture i c2 d2).
Proof. intros H. exact H. Qed.

Section CaseBlind.

Variable fl : flags.
Hypothesis Hfl : IGNORECASE fl = true.

(** What two continuations answer on alike positions. *)
Definition agree (k1 k2 : cursor -> option cursor) : Prop :=
  forall d1 d2, alike d1 d2 -> is_some (k1 d1) = is_some (k2 d2).

Lemma step_agree (p : ascii -> bool) (c1 c2 : cursor)
      (k1 k2 : cursor -> option cursor) :
  case_blind p -> alike c1 c2 -> agree k1 k2 ->
  is_some match step p c1 with Some d => k1 d | None => None end
  = is_some match step p c2 with Some d => k2 d | None => None end.
Proof.
  intros Hp Hc Hk. pose proof (alike_step p c1 c2 Hp Hc) as H.
  destruct (step p c1) as [d1|]; destruct (step p c2) as [d2|];
    try contradiction; [apply Hk; exact H | reflexivity].
Qed.

Lemma rounds_agree
      (m : cursor -> (cursor -> option cursor) -> option cursor)
      (k1 k2 : cursor -> option cursor) :
  (forall c1 c2 j1 j2, alike c1 c2 -> agree j1 j2 ->
                       is_some (m c1 j1) = is_some (m c2 j2)) ->
  agree k1 k2 ->
  forall fuel c1 c2,
    alike c1 c2 ->
    is_some (rounds m k1 fuel c1) = is_some (rounds m k2 fuel c2).
Proof.
  intros Hm Hk. induction fuel as [|fuel IH]; intros c1 c2 Hc; simpl.
  - apply Hk. exact Hc.
  - assert (Hin :
      is_some (m c1 (fun c' => if advanced c1 c' then rounds m k1 fuel c'
                               else None))
      = is_some (m c2 (fun c' => if advanced c2 c' then rounds m k2 fuel c'
                                 else None))).
    { apply Hm; [exact Hc|]. intros d1 d2 Hd.
      rewrite (alike_advanced c1 c2 d1 d2 Hc Hd).
      destruct (advanced c2 d2); [apply IH; exact Hd | reflexivity]. }
    destruct (m c1 _); destruct (m c2 _); try discriminate Hin.
    + reflexivity.
    + apply Hk. exact Hc.
Qed.

Lemma matches_agree (r : regex) :
  forall c1 c2 k1 k2,
    alike c1 c2 -> agree k1 k2 ->
    is_some (matches fl r c1 k1) = is_some (matches fl r c2 k2).
Proof.
  induction r as [| a | | | | | | | r1 IH1 r2 IH2 | r1 IH1 r2 IH2
                 | r1 IH1 | r1 IH1 | i r1 IH1];
    intros c1 c2 k1 k2 Hc Hk.
  - simpl. apply Hk. exact Hc.
  - simpl. apply step_agree; [|exact Hc | exact Hk].
    intros x y Hxy. unfold same_char. rewrite Hfl, Hxy. reflexivity.
  - simpl. apply step_agree; [|exact Hc | exact Hk].
    apply case_blind_lower. intros x. rewrite is_lf_lower. reflexivity.
  - simpl. apply step_agree; [|exact Hc | exact Hk].
    apply case_blind_lower. exact is_space_lower.
  - simpl. apply step_agree; [|exact Hc | exact Hk].
    apply case_blind_lower. exact is_word_lower.
  - simpl. pose proof Hc as [Hb Hr]. unfold at_bol.
    destruct (before c1) as [a|]; destruct (before c2) as [b|];
      try discriminate Hb.
    + simpl in Hb. injection Hb as Hab.
      rewrite <- (is_lf_lower a), <- (is_lf_lower b), Hab.
      destruct (MULTILINE fl && Ascii.eqb (lower b) lf);
        [apply Hk; exact Hc | reflexivity].
    + apply Hk. exact Hc.
  - simpl. pose proof Hc as [Hb Hr]. unfold at_eol.
    destruct (rest c1) as [|a s] eqn:E1; destruct (rest c2) as [|b t] eqn:E2;
      try discriminate Hr.
    + apply Hk. exact Hc.
    + simpl in Hr. injection Hr as Hab Hst.
      rewrite <- (is_lf_lower a), <- (is_lf_lower b), Hab.
      assert (Hempty : String.eqb s "" = String.eqb t "").
      { destruct s; destruct t; try discriminate Hst; reflexivity. }
      rewrite Hempty.
      destruct (Ascii.eqb (lower b) lf && (MULTILINE fl || String.eqb t ""));
        [apply Hk; exact Hc | reflexivity].
  - simpl. pose proof Hc as [Hb Hr].
    assert (Hwb : word_before c1 = word_before c2).
    { unfold word_before.
      destruct (before c1) as [a|]; destruct (before c2) as [b|];
        try discriminate Hb; [|reflexivity].
      simpl in Hb. injection Hb as Hab.
      rewrite <- (is_word_lower a), <- (is_word_lower b), Hab. reflexivity. }
    assert (Hwa : word_after c1 = word_after c2).
    { unfold word_after.
      destruct (rest c1) as [|a s]; destruct (rest c2) as [|b t];
        try discriminate Hr; [reflexivity|].
      simpl in Hr. injection Hr as Hab _.
      rewrite <- (is_word_lower a), <- (is_word_lower b), Hab. reflexivity. }
    rewrite Hwb, Hwa.
    destruct (xorb _ _); [apply Hk; exact Hc | reflexivity].
  - simpl. apply IH1; [exact Hc|]. intros d1 d2 Hd.
    apply IH2; [exact Hd | exact Hk].
  - simpl. pose proof (IH1 c1 c2 k1 k2 Hc Hk) as H1.
    pose proof (IH2 c1 c2 k1 k2 Hc Hk) as H2.
    destruct (matches fl r1 c1 k1); destruct (matches fl r1 c2 k2);
      try discriminate H1; [reflexivity | exact H2].
  - rewrite !matches_Star.
    rewrite (lowercase_length _ _ (proj2 Hc)).
    apply rounds_agree; [exact IH1 | exact Hk | exact Hc].
  - rewrite !matches_Plus. apply IH1; [exact Hc|]. intros d1 d2 Hd.
    rewrite (lowercase_length _ _ (proj2 Hd)).
    apply rounds_agree; [exact IH1 | exact Hk | exact Hd].
  - simpl. apply IH1; [exact Hc|]. intros d1 d2 Hd. apply Hk.
    apply alike_capture. exact Hd.
Qed.

Lemma head_agree (r : regex) (c1 c2 : cursor) :
  alike c1 c2 ->
  is_some (matches fl r c1 Some) = is_some (matches fl r c2 Some).
Proof.
  intros Hc. apply matches_agree; [exact Hc|]. intros d1 d2 _. reflexivity.
Qed.

Lemma search_from_agree (r : regex) (s1 : string) :
  forall (s2 : string) (p1 p2 : option ascii),
    option_map lower p1 = option_map lower p2 ->
    lowercase s1 = lowercase s2 ->
    is_some (search_from fl r p1 s1) = is_some (search_from fl r p2 s2).
Proof.
  induction s1 as [|a s1 IH]; intros s2 p1 p2 Hp Hs;
    destruct s2 as [|b s2]; try discriminate Hs.
  - simpl.
    pose proof (head_agree r
                  {| before := p1; rest := ""; groups := [] |}
                  {| before := p2; rest := ""; groups := [] |}
                  (conj Hp Hs)) as H.
    destruct (matches fl r _ Some); destruct (matches fl r _ Some);
      try discriminate H; reflexivity.
  - pose proof (head_agree r
                  {| before := p1; rest := String a s1; groups := [] |}
                  {| before := p2; rest := String b s2; groups := [] |}
                  (conj Hp Hs)) as H.
    simpl in Hs. injection Hs as Hab Hs. simpl search_from.
    destruct (matches fl r _ Some); destruct (matches fl r _ Some);
      try discriminate H; [reflexivity|].
    apply IH; [unfold option_map; rewrite Hab; reflexivity | exact Hs].
Qed.

End CaseBlind.

Lemma existsb_pointwise {A : Type} (f g : A -> bool) (l : list A) :
  (forall x, f x = g x) -> existsb f l = existsb g l.
Proof.
  intros H. induction l as [|x l IH]; simpl; [reflexivity|].
  rewrite H, IH. reflexivity.
Qed.

(** X10: the classification does not see the case of letters: two texts
    that are equal once their letters are lowered get the same answer
    from [check_requires_runtime]. *)
Theorem check_requires_runtime_case_blind
        (content content' name name' : string) :
  lowercase content = lowercase content' ->
  check_requires_runtime content name = check_requires_runtime content' name'.
Proof.
  intros H.
  assert (Hfound : forall indicator,
             found indicator content = found indicator content').
  { intros indicator. unfold found, re_search.
    pose proof (search_from_agree RE_IGNORECASE eq_refl indicator
                  content content' None None eq_refl H) as Hs.
    destruct (search_from RE_IGNORECASE indicator None content) as [[? ?]|];
      destruct (search_from RE_IGNORECASE indicator None content') as [[? ?]|];
      try discriminate Hs; reflexivity. }
  unfold check_requires_runtime.
  rewrite (existsb_pointwise _ (fun indicator => found indicator content')
             parse_validate_indicators Hfound).
  rewrite (existsb_pointwise _ (fun indicator => found indicator content')
             runtime_indicators Hfound).
  rewrite (Hfound setup_pattern). reflexivity.
Qed.

Lemma check_requires_runtime_case_blind_witness :
  check_requires_runtime "THEN THE RESULT SHOULD BE EMPTY" "a" = true /\
  check_requires_runtime "THEN THE RESULT SHOULD BE EMPTY" "a"
  = check_requires_runtime "Then the result should be empty" "b".
Proof.
  split; [vm_compute; reflexivity|].
  apply (check_requires_runtime_case_blind
           "THEN THE RESULT SHOULD BE EMPTY" "Then the result should be empty").
  reflexivity.
Defined.

(** ** Documents without declarations *)

(** Whether a line of the text [s] starts with [p]; [prev] is the
    character before [s]. *)
Fixpoint starts_line (p : string) (prev : option ascii) (s : string) : bool :=
  (match prev with
   | None => true
   | Some a => Ascii.eqb a lf
   end && startswith s p)
  || match s with
     | EmptyString => false
     | String a s' => starts_line p (Some a) s'
     end.

Lemma matches_lit_inv (fl : flags) (s : string) :
  IGNORECASE fl = false ->
  forall (c : cursor) (k : cursor -> option cursor) (x : cursor),
    matches fl (lit s) c k = Some x ->
    exists c', rest c = s ++ rest c' /\ k c' = Some x.
Proof.
  intros Hfl. induction s as [|a s IH]; intros c k x H.
  - exists c. split; [reflexivity | exact H].
  - simpl in H. unfold step, same_char in H. rewrite Hfl in H.
    destruct (rest c) as [|b t] eqn:Hrest; [discriminate H|].
    destruct (Ascii.eqb_spec a b) as [<-|_]; [|discriminate H].
    destruct (IH _ k x H) as [c' [Hc' Hk]]. simpl in Hc'.
    exists c'. split; [simpl; rewrite Hc'; reflexivity | exact Hk].
Qed.

Lemma startswith_app (p t : string) : startswith (p ++ t) p = true.
Proof.
  induction p as [|a p IH]; [destruct t; reflexivity|].
  simpl. rewrite Ascii.eqb_refl, IH. reflexivity.
Qed.

Lemma at_bol_multiline (c : cursor) :
  at_bol RE_MULTILINE c
  = match before c with
    | None => true
    | Some a => Ascii.eqb a lf
    end.
Proof. unfold at_bol. destruct (before c); reflexivity. Qed.

Lemma feature_pattern_start (c x : cursor) :
  matches RE_MULTILINE feature_pattern c Some = Some x ->
  at_bol RE_MULTILINE c = true /\ startswith (rest c) "Feature:" = true.
Proof.
  unfold feature_pattern.
  change (sequence (Bol :: lit "Feature:" :: ?rs))
    with (Seq Bol (Seq (lit "Feature:") (sequence rs))).
  intros H. simpl matches in H.
  destruct (at_bol RE_MULTILINE c); [|discriminate H].
  split; [reflexivity|].
  change (matches RE_MULTILINE (lit "Feature:") c
            (fun c' =>
               matches RE_MULTILINE
                 (sequence [Star Space; Group 1 (Plus AnyChar); Eol]) c' Some)
          = Some x) in H.
  destruct (matches_lit_inv RE_MULTILINE "Feature:" eq_refl _ _ _ H)
    as [c' [Hc' _]].
  rewrite Hc'. apply startswith_app.
Qed.

Lemma matches_Seq (fl : flags) (r1 r2 : regex) (c : cursor)
      (k : cursor -> option cursor) :
  matches fl (Seq r1 r2) c k = matches fl r1 c (fun c' => matches fl r2 c' k).
Proof. reflexivity. Qed.

Lemma matches_Bol (fl : flags) (c : cursor) (k : cursor -> option cursor) :
  matches fl Bol c k = if at_bol fl c then k c else None.
Proof. reflexivity. Qed.

Lemma matches_Group_Alt (fl : flags) (i : nat) (r1 r2 : regex) (c : cursor)
      (k : cursor -> option cursor) :
  matches fl (Group i (Alt r1 r2)) c k
  = match matches fl r1 c (fun c' => k (capture i c c')) with
    | Some x => Some x
    | None => matches fl r2 c (fun c' => k (capture i c c'))
    end.
Proof. reflexivity. Qed.

Lemma scenario_pattern_start (c x : cursor) :
  matches RE_MULTILINE scenario_pattern c Some = Some x ->
  at_bol RE_MULTILINE c = true /\ startswith (rest c) "  Scenario" = true.
Proof.
  unfold scenario_pattern.
  change (sequence (Bol :: lit "  " :: Group 1 ?g :: ?rs))
    with (Seq Bol (Seq (lit "  ") (Seq (Group 1 g) (sequence rs)))).
  rewrite matches_Seq, matches_Bol. intros H.
  destruct (at_bol RE_MULTILINE c); [|discriminate H].
  split; [reflexivity|].
  rewrite matches_Seq in H.
  destruct (matches_lit_inv RE_MULTILINE "  " eq_refl _ _ _ H)
    as [c1 [Hc1 H1]].
  rewrite Hc1. rewrite matches_Seq, matches_Group_Alt in H1.
  destruct (matches RE_MULTILINE (lit "Scenario") c1 _) as [y|] eqn:HA.
  - destruct (matches_lit_inv RE_MULTILINE "Scenario" eq_refl _ _ _ HA)
      as [c2 [Hc2 _]].
    rewrite Hc2. apply (startswith_app "  Scenario").
  - destruct (matches_lit_inv RE_MULTILINE "Scenario Outline" eq_refl _ _ _ H1)
      as [c2 [Hc2 _]].
    rewrite Hc2. apply (startswith_app "  Scenario" (" Outline" ++ rest c2)).
Qed.

Lemma search_from_none (r : regex) (p : string) :
  (forall c x, matches RE_MULTILINE r c Some = Some x ->
               at_bol RE_MULTILINE c = true /\ startswith (rest c) p = true) ->
  forall (s : string) (prev : option ascii),
    starts_line p prev s = false ->
    search_from RE_MULTILINE r prev s = None.
Proof.
  intros Hr. induction s as [|a s IH]; intros prev H.
  - simpl in H. apply orb_false_elim in H. destruct H as [H _].
    simpl. destruct (matches RE_MULTILINE r _ Some) as [x|] eqn:Hm;
      [|reflexivity].
    destruct (Hr _ _ Hm) as [Hb Hs]. rewrite at_bol_multiline in Hb.
    simpl in Hb, Hs. rewrite Hb, Hs in H. discriminate H.
  - change (starts_line p prev (String a s))
      with ((match prev with None => true | Some b => Ascii.eqb b lf end
             && startswith (String a s) p) || starts_line p (Some a) s) in H.
    apply orb_false_elim in H. destruct H as [H Hrest].
    simpl search_from.
    destruct (matches RE_MULTILINE r _ Some) as [x|] eqn:Hm.
    + destruct (Hr _ _ Hm) as [Hb Hs]. rewrite at_bol_multiline in Hb.
      simpl before in Hb. simpl rest in Hs. rewrite Hb, Hs in H.
      discriminate H.
    + apply IH. exact Hrest.
Qed.

(** A document that declares no feature. *)
Definition doc_nameless : string :=
  lines [ "# Feature: commented out";
          "  Scenario: Returning nothing";
          "    Given an empty graph" ].

(** X11: a document no line of which starts with [Feature:] gets the
    feature name ["Unknown"] on every scenario, and from a document no
    line of which starts with two spaces and [Scenario],
    [parse_feature_file] returns the empty list. *)
Theorem parse_feature_file_no_declaration
        (read : string -> result string) (cwd path content : string) :
  read path = Ok content ->
  (starts_line "Feature:" None content = false ->
   forall scenarios,
     parse_feature_file read cwd path = Ok scenarios ->
     Forall (fun s => feature_name s = "Unknown") scenarios)
  /\ (starts_line "  Scenario" None content = false ->
      parse_feature_file read cwd path = Ok []).
Proof.
  intros Hread. split.
  - intros Hf scenarios H. unfold parse_feature_file in H.
    rewrite Hread in H. simpl in H. unfold re_search in H.
    rewrite (search_from_none feature_pattern "Feature:" feature_pattern_start
               content None Hf) in H.
    revert H. apply for_enumerate_Forall.
    intros i m s Hs. unfold scenario_info in Hs.
    destruct (relpath cwd path tck_features_dir); [|discriminate Hs].
    simpl in Hs. injection Hs as <-. reflexivity.
  - intros Hs. unfold parse_feature_file. rewrite Hread. simpl.
    unfold re_findall. simpl findall_from.
    rewrite (search_from_none scenario_pattern "  Scenario"
               scenario_pattern_start content None Hs).
    reflexivity.
Qed.

Lemma parse_feature_file_no_declaration_witness :
  exists scenarios,
    parse_feature_file (read_of [(path_mixed, doc_nameless)]) "/home/tck"
                       path_mixed = Ok scenarios /\
    List.length scenarios = 1%nat /\
    Forall (fun s => feature_name s = "Unknown") scenarios.
Proof.
  eexists. split; [vm_compute; reflexivity|]. split; [reflexivity|].
  apply (proj1 (parse_feature_file_no_declaration
                  (read_of [(path_mixed, doc_nameless)]) "/home/tck"
                  path_mixed doc_nameless eq_refl)).
  - vm_compute. reflexivity.
  - vm_compute. reflexivity.
Defined.

End ClassifierSpec.

(* ================================================================== *)
(** * Properties of the manifest *)

Module ParseTckMainSpec.
Import ParseTck ParseTckSpec ParseTckMain.

(** ** Grouping by area *)

(** [scenarios_by_area.get(area)]. *)
Fixpoint group_of (d : groups) (area : string) : option (list scenario) :=
  match d with
  | [] => None
  | (a, l) :: d' => if String.eqb a area then Some l else group_of d' area
  end.

Definition in_area (area : string) (s : scenario) : bool :=
  String.eqb (language_area s) area.

(** The scenarios of an area as a group: none when there is no
    scenario. *)
Definition as_group (l : list scenario) : option (list scenario) :=
  match l with
  | [] => None
  | _ => Some l
  end.

(** The length of all groups together. *)
Definition grouped (d : groups) : nat :=
  list_sum (map (fun g => List.length (snd g)) d).

Lemma has_area_group_of (d : groups) (area : string) :
  has_area d area = match group_of d area with Some _ => true | None => false end.
Proof.
  induction d as [|[a l] d IH]; [reflexivity|]. simpl.
  destruct (String.eqb a area); [reflexivity | exact IH].
Qed.

Lemma has_area_keys (d : groups) (area : string) :
  has_area d area = false -> ~ In area (map fst d).
Proof.
  induction d as [|[a l] d IH]; intros H; [intros []|].
  simpl in H. apply orb_false_elim in H. destruct H as [Ha Hd].
  intros [Hin|Hin].
  - simpl in Hin. subst a. rewrite String.eqb_refl in Ha. discriminate Ha.
  - exact (IH Hd Hin).
Qed.

Lemma group_of_app_new (d : groups) (area area' : string) :
  has_area d area = false ->
  group_of (d ++ [(area, [])])%list area'
  = if String.eqb area area' then Some [] else group_of d area'.
Proof.
  induction d as [|[a l] d IH]; intros H; [reflexivity|].
  simpl in H. apply orb_false_elim in H. destruct H as [Ha Hd]. simpl.
  destruct (String.eqb_spec a area') as [->|Hne].
  - rewrite String.eqb_sym, Ha. reflexivity.
  - apply IH. exact Hd.
Qed.

Lemma group_of_append_to (d : groups) (area area' : string) (s : scenario) :
  group_of (append_to d area s) area'
  = if String.eqb area area'
    then option_map (fun l => (l ++ [s])%list) (group_of d area')
    else group_of d area'.
Proof.
  induction d as [|[a l] d IH]; simpl.
  - destruct (String.eqb area area'); reflexivity.
  - destruct (String.eqb_spec a area) as [->|Hne]; simpl.
    + destruct (String.eqb area area'); reflexivity.
    + destruct (String.eqb_spec a area') as [->|Hne'].
      * destruct (String.eqb_spec area area'); [congruence | reflexivity].
      * exact IH.
Qed.

Lemma keys_append_to (d : groups) (area : string) (s : scenario) :
  map fst (append_to d area s) = map fst d.
Proof.
  induction d as [|[a l] d IH]; [reflexivity|]. simpl.
  destruct (String.eqb a area); simpl; [reflexivity | rewrite IH; reflexivity].
Qed.

Lemma grouped_append_to (d : groups) (area : string) (s : scenario) :
  has_area d area = true ->
  grouped (append_to d area s) = S (grouped d).
Proof.
  unfold grouped. induction d as [|[a l] d IH]; intros H; [discriminate H|].
  simpl in H. simpl. destruct (String.eqb a area); simpl.
  - rewrite length_app. simpl. lia.
  - rewrite (IH H). lia.
Qed.

Lemma grouped_app_new (d : groups) (area : string) :
  grouped (d ++ [(area, [])])%list = grouped d.
Proof.
  unfold grouped. rewrite map_app, list_sum_app. simpl. lia.
Qed.

Lemma has_area_app_new (d : groups) (area : string) :
  has_area (d ++ [(area, [])])%list area = true.
Proof.
  induction d as [|[a l] d IH]; simpl.
  - rewrite String.eqb_refl. reflexivity.
  - rewrite IH. apply orb_true_r.
Qed.

Lemma filter_snoc {A : Type} (p : A -> bool) (l : list A) (x : A) :
  filter p (l ++ [x])%list = if p x then (filter p l ++ [x])%list else filter p l.
Proof.
  rewrite filter_app. simpl. destruct (p x); [reflexivity | apply app_nil_r].
Qed.

(** What the grouping loop keeps true of the groups [d] once the
    scenarios [seen] are through. *)
Definition grouping (d : groups) (seen : list scenario) : Prop :=
  NoDup (map fst d) /\
  grouped d = List.length seen /\
  forall area, group_of d area = as_group (filter (in_area area) seen).

Lemma grouping_step (d : groups) (seen : list scenario) (s : scenario) :
  grouping d seen -> grouping (group_scenario d s) (seen ++ [s])%list.
Proof.
  intros [Hnd [Hlen Hg]]. unfold group_scenario.
  destruct (has_area d (language_area s)) eqn:Hhas.
  - split; [rewrite keys_append_to; exact Hnd|]. split.
    + rewrite (grouped_append_to _ _ _ Hhas), length_app, Hlen. simpl. lia.
    + intros area. rewrite group_of_append_to, filter_snoc, Hg.
      change (String.eqb (language_area s) area) with (in_area area s).
      destruct (in_area area s) eqn:E; [|reflexivity].
      apply String.eqb_eq in E. subst area.
      rewrite has_area_group_of, Hg in Hhas.
      destruct (filter (in_area (language_area s)) seen); [discriminate Hhas|].
      reflexivity.
  - split; [|split].
    + rewrite keys_append_to, map_app. simpl.
      apply NoDup_app; [exact Hnd | constructor; [intros [] | constructor] |].
      intros a Hin [<-|[]]. exact (has_area_keys d _ Hhas Hin).
    + rewrite (grouped_append_to _ _ _ (has_area_app_new d _)).
      rewrite grouped_app_new, length_app, Hlen. simpl. lia.
    + intros area.
      rewrite group_of_append_to, (group_of_app_new d _ area Hhas).
      rewrite filter_snoc, Hg.
      change (String.eqb (language_area s) area) with (in_area area s).
      destruct (in_area area s) eqn:E; [|reflexivity].
      apply String.eqb_eq in E. subst area.
      rewrite has_area_group_of, Hg in Hhas.
      destruct (filter (in_area (language_area s)) seen);
        [reflexivity | discriminate Hhas].
Qed.

Lemma grouping_fold (all : list scenario) :
  forall d seen,
    grouping d seen ->
    grouping (fold_left group_scenario all d) (seen ++ all)%list.
Proof.
  induction all as [|s all IH]; intros d seen H; simpl.
  - rewrite app_nil_r. exact H.
  - replace (seen ++ s :: all)%list with ((seen ++ [s]) ++ all)%list
      by (rewrite <- app_assoc; reflexivity).
    apply IH. apply grouping_step. exact H.
Qed.

Lemma grouping_all (all : list scenario) :
  grouping (scenarios_by_area all) all.
Proof.
  apply (grouping_fold all [] []).
  split; [constructor | split; [reflexivity | intros area; reflexivity]].
Qed.

Lemma group_of_In (d : groups) (area : string) (l : list scenario) :
  NoDup (map fst d) -> In (area, l) d -> group_of d area = Some l.
Proof.
  induction d as [|[a l0] d IH]; intros Hnd Hin; [destruct Hin|].
  simpl in Hnd. inversion Hnd as [|x xs Hnotin Hnd']. subst.
  destruct Hin as [Heq|Hin].
  - injection Heq as -> ->. simpl. rewrite String.eqb_refl. reflexivity.
  - simpl. destruct (String.eqb_spec a area) as [->|Hne].
    + exfalso. apply Hnotin. apply (in_map fst) in Hin. exact Hin.
    + exact (IH Hnd' Hin).
Qed.

(** X12: [main] groups every scenario under its language area.  The
    areas of [scenarios_by_area] are pairwise different, the group of an
    area holds the scenarios of that area, all of them, in the order of
    [all_scenarios], and no group is empty. *)
Theorem main_groups_by_area
        (read : string -> result string) (cwd : string)
        (walk : list (string * list string)) :
  exists (sm : summary) (rows : list (list string)),
    main true read cwd walk = Some (sm, rows) /\
    NoDup (map fst (summary_scenarios_by_area sm)) /\
    (forall area,
        group_of (summary_scenarios_by_area sm) area
        = as_group (filter (in_area area) (all_scenarios read cwd walk))) /\
    (forall area l,
        In (area, l) (summary_scenarios_by_area sm) ->
        l <> [] /\ l = filter (in_area area) (all_scenarios read cwd walk)).
Proof.
  eexists. eexists. split; [reflexivity|]. simpl.
  destruct (grouping_all (all_scenarios read cwd walk)) as [Hnd [_ Hg]].
  split; [exact Hnd|]. split; [exact Hg|].
  intros area l Hin. pose proof (group_of_In _ _ _ Hnd Hin) as H.
  rewrite Hg in H.
  destruct (filter (in_area area) (all_scenarios read cwd walk));
    [discriminate H|].
  injection H as <-. split; [discriminate | reflexivity].
Qed.

(** ** The counts of the areas *)

Lemma area_summary_split (l : list scenario) :
  (area_total (area_summary l)
   = runtime_execution (area_summary l) + parse_validate_only (area_summary l)
   /\ 0 <= runtime_execution (area_summary l)
   /\ 0 <= parse_validate_only (area_summary l))%Z.
Proof.
  unfold area_summary. simpl.
  pose proof (filter_length_le requires_runtime l). lia.
Qed.

Lemma list_sum_lengths (d : groups) :
  fold_right Z.add 0%Z
    (map (fun g => area_total (snd g))
         (map (fun g => (fst g, area_summary (snd g))) d))
  = Z.of_nat (grouped d).
Proof.
  unfold grouped. induction d as [|[a l] d IH]; [reflexivity|].
  simpl map. simpl fold_right. rewrite IH. simpl list_sum. lia.
Qed.

(** X13: in the summary of [main] every area has at least one scenario
    and its total is the sum of its runtime count and its parse-only
    count, neither of them negative; the totals of the areas add up to
    the [total_scenarios] of [commit_info], the length of
    [all_scenarios]. *)
Theorem main_area_counts
        (read : string -> result string) (cwd : string)
        (walk : list (string * list string)) :
  exists (sm : summary) (rows : list (list string)),
    main true read cwd walk = Some (sm, rows) /\
    total_scenarios (summary_commit_info sm)
    = Z.of_nat (List.length (all_scenarios read cwd walk)) /\
    map fst (language_areas sm) = map fst (summary_scenarios_by_area sm) /\
    (forall area st,
        In (area, st) (language_areas sm) ->
        (1 <= area_total st /\
         area_total st = runtime_execution st + parse_validate_only st /\
         0 <= runtime_execution st /\ 0 <= parse_validate_only st)%Z) /\
    fold_right Z.add 0%Z (map (fun a => area_total (snd a)) (language_areas sm))
    = total_scenarios (summary_commit_info sm).
Proof.
  eexists. eexists. split; [reflexivity|]. simpl.
  set (all := all_scenarios read cwd walk).
  destruct (grouping_all all) as [Hnd [Hlen Hg]].
  split; [reflexivity|]. split; [rewrite map_map; reflexivity|]. split.
  - intros area st Hin. apply in_map_iff in Hin.
    destruct Hin as [[a l] [Heq Hin]]. simpl in Heq. injection Heq as -> <-.
    pose proof (area_summary_split l) as [H1 [H2 H3]].
    split; [|split; [exact H1 | split; assumption]].
    pose proof (group_of_In _ _ _ Hnd Hin) as H. rewrite Hg in H.
    destruct (filter (in_area area) all); [discriminate H|].
    injection H as <-. simpl. lia.
  - rewrite list_sum_lengths, Hlen. reflexivity.
Qed.

(** ** The rows of the table *)

(** [k1 < k2] as a proposition. *)
Definition klt (k1 k2 : string * string) : Prop :=
  if String.eqb (fst k1) (fst k2) then OrderedTypeEx.String_as_OT.lt (snd k1) (snd k2)
  else OrderedTypeEx.String_as_OT.lt (fst k1) (fst k2).

Lemma ltb_lt (a b : string) : String.ltb a b = true <-> OrderedTypeEx.String_as_OT.lt a b.
Proof.
  unfold String.ltb. rewrite <- OrderedTypeEx.String_as_OT.cmp_lt. unfold OrderedTypeEx.String_as_OT.cmp.
  destruct (String.compare a b); split; congruence.
Qed.

Lemma key_lt_klt (k1 k2 : string * string) : key_lt k1 k2 = true <-> klt k1 k2.
Proof.
  unfold key_lt, klt. destruct (String.eqb (fst k1) (fst k2)); apply ltb_lt.
Qed.

Lemma klt_irrefl (k : string * string) : ~ klt k k.
Proof.
  unfold klt. rewrite String.eqb_refl. intros H.
  exact (OrderedTypeEx.String_as_OT.lt_not_eq _ _ H eq_refl).
Qed.

Lemma klt_trans (k1 k2 k3 : string * string) :
  klt k1 k2 -> klt k2 k3 -> klt k1 k3.
Proof.
  unfold klt.
  destruct (String.eqb_spec (fst k1) (fst k2)) as [E12|N12];
    destruct (String.eqb_spec (fst k2) (fst k3)) as [E23|N23];
    destruct (String.eqb_spec (fst k1) (fst k3)) as [E13|N13];
    intros H1 H2; try congruence;
    try exact (OrderedTypeEx.String_as_OT.lt_trans _ _ _ H1 H2).
  exfalso. rewrite E13 in H1.
  exact (OrderedTypeEx.String_as_OT.lt_not_eq _ _ (OrderedTypeEx.String_as_OT.lt_trans _ _ _ H2 H1) eq_refl).
Qed.

(** [b] is not below [a]: the order of two neighbours of a sorted list. *)
Definition not_above (a b : scenario) : Prop :=
  key_lt (sort_key b) (sort_key a) = false.

Lemma key_lt_asym (a b : scenario) :
  key_lt (sort_key a) (sort_key b) = true -> not_above a b.
Proof.
  intros H. unfold not_above.
  destruct (key_lt (sort_key b) (sort_key a)) eqn:E; [|reflexivity].
  exfalso. apply key_lt_klt in H. apply key_lt_klt in E.
  exact (klt_irrefl _ (klt_trans _ _ _ H E)).
Qed.

Lemma not_above_trans (x y z : scenario) :
  key_lt (sort_key x) (sort_key y) = true -> not_above y z -> not_above x z.
Proof.
  intros Hxy Hyz. unfold not_above in *.
  destruct (key_lt (sort_key z) (sort_key x)) eqn:E; [|reflexivity].
  exfalso. apply key_lt_klt in Hxy. apply key_lt_klt in E.
  pose proof (proj2 (key_lt_klt _ _) (klt_trans _ _ _ E Hxy)) as H.
  congruence.
Qed.

Lemma insert_sorted_perm (x : scenario) (l : list scenario) :
  Permutation (x :: l) (insert_sorted x l).
Proof.
  induction l as [|y l IH]; simpl; [apply Permutation_refl|].
  destruct (key_lt (sort_key x) (sort_key y)); [apply Permutation_refl|].
  apply (perm_trans (perm_swap y x l)). apply perm_skip. exact IH.
Qed.

Lemma insert_sorted_sorted (x : scenario) (l : list scenario) :
  StronglySorted not_above l -> StronglySorted not_above (insert_sorted x l).
Proof.
  induction l as [|y l IH]; intros H; simpl.
  - constructor; constructor.
  - inversion H as [|a b Hl Hy]. subst.
    destruct (key_lt (sort_key x) (sort_key y)) eqn:E.
    + constructor; [exact H|]. constructor; [exact (key_lt_asym x y E)|].
      rewrite Forall_forall in *. intros z Hz.
      exact (not_above_trans x y z E (Hy z Hz)).
    + constructor; [exact (IH Hl)|].
      apply (Permutation_Forall (insert_sorted_perm x l)).
      constructor; [exact E | exact Hy].
Qed.

(** Whether a scenario sorts under the key [k]. *)
Definition sorts_under (k : string * string) (s : scenario) : bool :=
  String.eqb (fst k) (language_area s) && String.eqb (snd k) (scenario_id s).

Lemma sorts_under_eq (k : string * string) (s : scenario) :
  sorts_under k s = true -> sort_key s = k.
Proof.
  unfold sorts_under, sort_key. intros H. apply andb_prop in H.
  destruct H as [H1 H2]. apply String.eqb_eq in H1, H2.
  destruct k; simpl in *; subst; reflexivity.
Qed.

Lemma insert_sorted_stable (k : string * string) (x : scenario)
      (l : list scenario) :
  StronglySorted not_above l ->
  filter (sorts_under k) (insert_sorted x l)
  = if sorts_under k x then (filter (sorts_under k) l ++ [x])%list
    else filter (sorts_under k) l.
Proof.
  induction l as [|y l IH]; intros H.
  - simpl. destruct (sorts_under k x); reflexivity.
  - inversion H as [|a b Hl Hy]. subst. simpl insert_sorted.
    destruct (key_lt (sort_key x) (sort_key y)) eqn:E.
    + destruct (sorts_under k x) eqn:Hx; [|simpl; rewrite Hx; reflexivity].
      assert (Hnone : filter (sorts_under k) (y :: l) = []).
      { assert (Hall : forall z, In z (y :: l) -> sorts_under k z = false).
        { intros z Hz. destruct (sorts_under k z) eqn:Hkz; [|reflexivity].
          exfalso. apply sorts_under_eq in Hx, Hkz.
          assert (Ezy : key_lt (sort_key z) (sort_key y) = true)
            by (rewrite Hkz, <- Hx; exact E).
          destruct Hz as [<-|Hz].
          - apply key_lt_klt in Ezy. exact (klt_irrefl _ Ezy).
          - rewrite Forall_forall in Hy. pose proof (Hy z Hz) as Hyz.
            unfold not_above in Hyz. congruence. }
        clear -Hall. induction (y :: l) as [|z zs IHz]; [reflexivity|].
        simpl. rewrite (Hall z (or_introl eq_refl)).
        apply IHz. intros w Hw. apply Hall. right. exact Hw. }
      change (filter (sorts_under k) (x :: y :: l))
        with (if sorts_under k x then x :: filter (sorts_under k) (y :: l)
              else filter (sorts_under k) (y :: l)).
      rewrite Hx, Hnone. reflexivity.
    + simpl. rewrite (IH Hl).
      destruct (sorts_under k y); destruct (sorts_under k x); reflexivity.
Qed.

(** What the sort keeps true of the rows [acc] once [seen] are in. *)
Definition sorting (acc seen : list scenario) : Prop :=
  Permutation seen acc /\
  StronglySorted not_above acc /\
  forall k, filter (sorts_under k) acc = filter (sorts_under k) seen.

Lemma sorting_fold (xs : list scenario) :
  forall acc seen,
    sorting acc seen ->
    sorting (fold_left (fun acc x => insert_sorted x acc) xs acc)
            (seen ++ xs)%list.
Proof.
  induction xs as [|x xs IH]; intros acc seen H; simpl.
  - rewrite app_nil_r. exact H.
  - replace (seen ++ x :: xs)%list with ((seen ++ [x]) ++ xs)%list
      by (rewrite <- app_assoc; reflexivity).
    apply IH. destruct H as [Hp [Hs Hk]]. split; [|split].
    + apply (perm_trans (Permutation_sym (Permutation_cons_append seen x))).
      apply (perm_trans (perm_skip x Hp)). apply insert_sorted_perm.
    + apply insert_sorted_sorted. exact Hs.
    + intros k. rewrite (insert_sorted_stable k x acc Hs), filter_snoc, Hk.
      reflexivity.
Qed.

(** X14: the rows [main] writes to the table after the header are the
    rows of the scenarios of [all_scenarios], each once, in ascending
    order of [(language_area, scenario_id)]; scenarios with the same key
    keep the order of [all_scenarios]. *)
Theorem main_table_sorted
        (read : string -> result string) (cwd : string)
        (walk : list (string * list string)) :
  exists (sm : summary) (ordered : list scenario),
    main true read cwd walk = Some (sm, csv_header :: map csv_row ordered) /\
    Permutation (all_scenarios read cwd walk) ordered /\
    StronglySorted not_above ordered /\
    (forall k, filter (sorts_under k) ordered
               = filter (sorts_under k) (all_scenarios read cwd walk)).
Proof.
  eexists. exists (sorted (all_scenarios read cwd walk)).
  split; [reflexivity|].
  apply (sorting_fold (all_scenarios read cwd walk) [] []).
  split; [constructor | split; [constructor | reflexivity]].
Qed.

End ParseTckMainSpec.

(* ================================================================== *)
(** * Properties of the demo *)

Module DemoCoverageSpec.
Import UpdateCompliance UpdateComplianceSpec DemoCoverage.

Local Open Scope Z_scope.

Lemma share_counts (n p f s q : Z) (c : float) (key : string) (v : Z) :
  dict_lookup [ ("total_scenarios", VInt n); ("passed", VInt p);
                ("failed", VInt f); ("skipped", VInt s); ("pending", VInt q);
                ("compliance_percentage", VFloat c) ] key = Some (VInt v) ->
  share (statistics_block n p f s q c) key
  = bind (py_truediv (VInt v) (VInt n))
         (fun x => Ok (VInt v, PrimFloat.mul x 100%float)).
Proof.
  intros H. unfold share, statistics_block, py_getitem. rewrite H, !bind_ok.
  reflexivity.
Qed.

(** X15: on a ledger [update_statistics] has just recomputed, the status
    breakdown of the demo raises [ZeroDivisionError] when the ledger has
    no entry, where [calculate_compliance] returns 0.0, and gives its
    four lines when the ledger has entries. *)
Theorem status_breakdown_empty_ledger (coverage_data : value) :
  wf_ledger coverage_data = true ->
  exists d' : value,
    update_statistics coverage_data = Ok d' /\
    (entries coverage_data = [] ->
     status_breakdown d' = Raise ZeroDivisionError /\
     calculate_compliance d' = Ok 0%float) /\
    (entries coverage_data <> [] ->
     exists ls, status_breakdown d' = Ok ls /\ List.length ls = 4%nat).
Proof.
  intros Hwf. destruct (update_statistics_wf coverage_data Hwf) as [d [_ Hup]].
  eexists. split; [exact Hup|].
  set (es := entries coverage_data).
  assert (Hst : py_getitem (VDict (dict_set d "statistics" (statistics_of es)))
                           "statistics" = Ok (statistics_of es)).
  { unfold py_getitem. rewrite dict_lookup_set_same. reflexivity. }
  split.
  - intros Hnil. rewrite Hnil in Hst |- *. split.
    + unfold status_breakdown. rewrite Hst. reflexivity.
    + unfold calculate_compliance, py_get.
      rewrite dict_lookup_set_same. reflexivity.
  - intros Hne.
    assert (Hlen : Z.of_nat (List.length es) <> 0).
    { destruct es; [congruence | simpl List.length; lia]. }
    pose proof (tally_total es) as Htot.
    pose proof (tally_nonneg Passed es). pose proof (tally_nonneg Failed es).
    pose proof (tally_nonneg Skipped es). pose proof (tally_nonneg Pending es).
    unfold status_breakdown. rewrite Hst, bind_ok. unfold statistics_of.
    rewrite (share_counts _ _ _ _ _ _ "passed" (tally Passed es) eq_refl).
    rewrite (share_counts _ _ _ _ _ _ "failed" (tally Failed es) eq_refl).
    rewrite (share_counts _ _ _ _ _ _ "skipped" (tally Skipped es) eq_refl).
    rewrite (share_counts _ _ _ _ _ _ "pending" (tally Pending es) eq_refl).
    rewrite !py_truediv_counts by lia.
    eexists. split; reflexivity.
Qed.

Lemma status_breakdown_empty_ledger_witness :
  exists d' : value,
    update_statistics ledger0 = Ok d' /\
    (entries ledger0 = [] ->
     status_breakdown d' = Raise ZeroDivisionError /\
     calculate_compliance d' = Ok 0%float) /\
    (entries ledger0 <> [] ->
     exists ls, status_breakdown d' = Ok ls /\ List.length ls = 4%nat).
Proof.
  apply (status_breakdown_empty_ledger ledger0). reflexivity.
Defined.

(** ** The pending scenarios the demo lists *)

Lemma py_eq_str_true (o : value) (s : string) :
  py_eq_str o s = true -> o = VStr s.
Proof.
  destruct o; try discriminate. simpl. intros H.
  apply String.eqb_eq in H. rewrite H. reflexivity.
Qed.

Lemma pending_high_true (s : value) :
  pending_high s = Ok true ->
  py_get s "status" VNone = Ok (VStr "pending") /\
  py_get s "priority" VNone = Ok (VStr "high") /\
  counter_of s = Pending.
Proof.
  unfold pending_high. intros H.
  destruct (py_get s "status" VNone) as [st|e] eqn:Hst; [|discriminate H].
  simpl in H. destruct (py_eq_str st "pending") eqn:Hp; [|discriminate H].
  apply py_eq_str_true in Hp. subst st.
  destruct (py_get s "priority" VNone) as [pr|e] eqn:Hpr; [|discriminate H].
  simpl in H. injection H as H. apply py_eq_str_true in H. subst pr.
  split; [reflexivity|]. split; [reflexivity|].
  destruct s as [| | | | | |d]; try discriminate Hst.
  unfold py_get in Hst. unfold counter_of.
  destruct (dict_lookup d "status") as [v|]; [|discriminate Hst].
  injection Hst as ->. reflexivity.
Qed.

Lemma comprehension_kept (cond : value -> result bool) (xs : list value) :
  forall selected,
    comprehension cond xs = Ok selected ->
    Forall (fun x => cond x = Ok true) selected /\
    (List.length selected <= List.length xs)%nat.
Proof.
  induction xs as [|x xs IH]; intros selected H; simpl in H.
  - injection H as <-. split; [constructor | reflexivity].
  - destruct (cond x) as [keep|e] eqn:Hx; [|discriminate H]. simpl in H.
    destruct (comprehension cond xs) as [rest|e]; [|discriminate H].
    simpl in H. injection H as <-. destruct (IH rest eq_refl) as [Hf Hl].
    destruct keep.
    + split; [constructor; assumption | simpl; lia].
    + split; [exact Hf | simpl; lia].
Qed.

Lemma Forall_firstn {A : Type} (P : A -> Prop) (n : nat) (l : list A) :
  Forall P l -> Forall P (firstn n l).
Proof.
  intros H. revert n. induction H as [|x l Hx _ IH]; intros [|n]; simpl;
    constructor; [exact Hx | apply IH].
Qed.

(** A ledger of six pending scenarios of high priority and one entry
    that has no status. *)
Definition ledger_backlog : value :=
  VDict [ ("scenarios",
           VList [ entry "a-01" "pending"; entry "a-02" "pending";
                   VDict [("scenario_id", VStr "a-03"); ("priority", VStr "high")];
                   entry "a-04" "pending"; entry "a-05" "pending";
                   entry "a-06" "pending"; entry "a-07" "pending" ]) ].

(** X16: the demo lists at most five scenarios, each with the status
    ['pending'] and the priority ['high'], and each of them is one that
    [update_statistics] counts as pending.  An entry without a status,
    which [update_statistics] counts as pending too, is never listed. *)
Theorem high_priority_pending_listed :
  (forall (coverage : value) (listed : list value),
      high_priority_pending coverage = Ok listed ->
      (List.length listed <= 5)%nat /\
      Forall (fun s =>
                py_get s "status" VNone = Ok (VStr "pending") /\
                py_get s "priority" VNone = Ok (VStr "high") /\
                counter_of s = Pending) listed)
  /\ (forall d : dict,
        dict_lookup d "status" = None ->
        pending_high (VDict d) = Ok false /\ counter_of (VDict d) = Pending).
Proof.
  split.
  - intros coverage listed H. unfold high_priority_pending in H.
    apply bind_inv in H. destruct H as [scenarios [_ H]].
    apply bind_inv in H. destruct H as [items [_ H]].
    apply bind_inv in H. destruct H as [selected [Hsel H]].
    assert (Hl : firstn 5 selected = listed) by congruence.
    clear H. rewrite <- Hl. split; [apply firstn_le_length|].
    apply Forall_firstn.
    destruct (comprehension_kept _ _ _ Hsel) as [Hf _].
    rewrite Forall_forall in *. intros s Hs.
    apply pending_high_true. exact (Hf s Hs).
  - intros d H. unfold pending_high, py_get, counter_of. rewrite H.
    split; reflexivity.
Qed.

Lemma high_priority_pending_listed_witness :
  high_priority_pending ledger_backlog
  = Ok [ entry "a-01" "pending"; entry "a-02" "pending";
         entry "a-04" "pending"; entry "a-05" "pending";
         entry "a-06" "pending" ] /\
  (List.length [ entry "a-01" "pending"; entry "a-02" "pending";
                 entry "a-04" "pending"; entry "a-05" "pending";
                 entry "a-06" "pending" ] <= 5)%nat.
Proof.
  split; [vm_compute; reflexivity|].
  apply (proj1 high_priority_pending_listed ledger_backlog).
  vm_compute. reflexivity.
Defined.

End DemoCoverageSpec.
